(** * Payslip header post-processing: examples/fix_payslip_header.py

    A shallow embedding of the three pure functions of the module
    ([parse_header_pairs], [rewrite_header], [_clean_first_table]) and of
    [extract_filename_hints], together with the pieces of Python's [str]
    and [re] they rely on.

    A Python [str] is modelled as a list of characters; a character is a
    code point in the range 0..255, and Python's character classes are
    written out on that range. *)

From Stdlib Require Import Ascii String List Arith Bool Lia.
From stdpp Require Import base option list strings gmap.

Open Scope list_scope.

Abbreviation str := (list ascii).

(** A Python string literal. *)
Definition py (s : string) : str := list_ascii_of_string s.

(** ** Characters *)

Module Chr.

Definition ord (c : ascii) : nat := nat_of_ascii c.

Definition between (lo hi : nat) (c : ascii) : bool :=
  (lo <=? ord c) && (ord c <=? hi).

Definition LF : ascii := "010"%char.
Definition CR : ascii := "013"%char.

(** [[A-Z]], [[a-z]], [[0-9]] as written in the patterns. *)
Definition AZ (c : ascii) : bool := between 65 90 c.
Definition az (c : ascii) : bool := between 97 122 c.
Definition d09 (c : ascii) : bool := between 48 57 c.

(** [\d] on a [str] pattern: the decimal digits. *)
Definition decimal (c : ascii) : bool := d09 c.

(** [str.isspace] of one character, which is also [\s] and what
    [str.strip] removes: tab..CR, FS..US, space, NEL, NBSP. *)
Definition isspace (c : ascii) : bool :=
  between 9 13 c || between 28 32 c || (ord c =? 133) || (ord c =? 160).

(** The line boundaries of [str.splitlines]: LF, VT, FF, CR, FS, GS, RS,
    NEL. *)
Definition linebreak (c : ascii) : bool :=
  between 10 13 c || between 28 30 c || (ord c =? 133).

(** [str.isalpha] of one character. *)
Definition isalpha (c : ascii) : bool :=
  AZ c || az c || (ord c =? 170) || (ord c =? 181) || (ord c =? 186)
  || between 192 214 c || between 216 246 c || between 248 255 c.

(** [str.isdigit] of one character: the decimal digits and the
    superscripts two, three and one. *)
Definition isdigit (c : ascii) : bool :=
  d09 c || (ord c =? 178) || (ord c =? 179) || (ord c =? 185).

(** [str.isnumeric] adds the three vulgar fractions. *)
Definition isnumeric (c : ascii) : bool := isdigit c || between 188 190 c.

(** [\w] on a [str] pattern: alphanumeric or underscore. *)
Definition word (c : ascii) : bool :=
  isalpha c || isnumeric c || (ord c =? 95).

(** [str.lower] of one character. *)
Definition lower (c : ascii) : ascii :=
  if AZ c || (between 192 222 c && negb (ord c =? 215))
  then ascii_of_nat (ord c + 32) else c.

End Chr.

(** ** The [str] methods the module calls *)

Module Str.

Definition truthy (s : str) : bool :=
  match s with [] => false | _ :: _ => true end.

(** [s.startswith(p)] *)
Fixpoint startswith (s p : str) : bool :=
  match p, s with
  | [], _ => true
  | _ :: _, [] => false
  | a :: p', b :: s' => Ascii.eqb a b && startswith s' p'
  end.

(** [s.find(sub)]: the lowest index, [None] for -1. *)
Fixpoint find (s sub : str) : option nat :=
  if startswith s sub then Some 0
  else match s with
       | [] => None
       | _ :: s' => S <$> find s' sub
       end.

(** [sub in s] *)
Definition contains (s sub : str) : bool := bool_decide (is_Some (find s sub)).

(** [s[a:b]] for non-negative [a] and [b]; [s[a:]] is [drop a s]. *)
Definition slice (s : str) (a b : nat) : str := take (b - a) (drop a s).

Fixpoint lstrip (s : str) : str :=
  match s with
  | c :: s' => if Chr.isspace c then lstrip s' else s
  | [] => []
  end.

Definition rstrip (s : str) : str := rev (lstrip (rev s)).

Definition strip (s : str) : str := rstrip (lstrip s).

Definition lower (s : str) : str := map Chr.lower s.

(** [s.isdigit()] *)
Definition isdigit (s : str) : bool := truthy s && forallb Chr.isdigit s.

(** [s.replace(old, new)] for a one-character [old]. *)
Definition replace (s : str) (old : ascii) (new : str) : str :=
  flat_map (fun c => if Ascii.eqb c old then new else [c]) s.

(** [sep.join(parts)] *)
Fixpoint join (sep : str) (parts : list str) : str :=
  match parts with
  | [] => []
  | [p] => p
  | p :: ps => p ++ sep ++ join sep ps
  end.

(** [s.splitlines(keepends)]: [cur] is the line read so far. *)
Fixpoint splitlines_from (keepends : bool) (cur s : str) : list str :=
  match s with
  | [] => if truthy cur then [cur] else []
  | c :: s' =>
      if Chr.linebreak c then
        match s' with
        | c' :: s'' =>
            if Ascii.eqb c Chr.CR && Ascii.eqb c' Chr.LF
            then (cur ++ if keepends then [c; c'] else [])
                   :: splitlines_from keepends [] s''
            else (cur ++ if keepends then [c] else [])
                   :: splitlines_from keepends [] s'
        | [] => [cur ++ if keepends then [c] else []]
        end
      else splitlines_from keepends (cur ++ [c]) s'
  end.

Definition splitlines (s : str) (keepends : bool) : list str :=
  splitlines_from keepends [] s.

(** [s.split()]: the maximal runs of non-whitespace characters. *)
Fixpoint split_ws_from (cur s : str) : list str :=
  match s with
  | [] => if truthy cur then [cur] else []
  | c :: s' =>
      if Chr.isspace c
      then (if truthy cur then [cur] else []) ++ split_ws_from [] s'
      else split_ws_from (cur ++ [c]) s'
  end.

Definition split_ws (s : str) : list str := split_ws_from [] s.

(** [s.split(sep)] for a one-character separator. *)
Fixpoint split_from (sep : ascii) (cur s : str) : list str :=
  match s with
  | [] => [cur]
  | c :: s' =>
      if Ascii.eqb c sep then cur :: split_from sep [] s'
      else split_from sep (cur ++ [c]) s'
  end.

Definition split (s : str) (sep : ascii) : list str := split_from sep [] s.

(** [l[-k]] for [k >= 1]; [None] where Python raises [IndexError]. *)
Definition item_neg {A} (l : list A) (k : nat) : option A :=
  if (1 <=? k) && (k <=? length l) then l !! (length l - k) else None.

End Str.

(** ** The fragment of [re] the module uses

    Patterns are built from single-character classes, the word boundary
    [\b], concatenation and greedy bounded or unbounded repetition.  The
    matcher is the backtracking one: a repetition first takes as many
    iterations as it can and gives them back one at a time while the rest
    of the pattern fails. *)

Module Re.

Inductive regex : Type :=
| Cls (p : ascii -> bool)                       (* one character of a class *)
| Bnd                                           (* \b *)
| Cat (r1 r2 : regex)                           (* r1 r2 *)
| Rep (r : regex) (lo : nat) (hi : option nat). (* r{lo,hi}, greedy *)

Declare Scope regex_scope.
Delimit Scope regex_scope with re.
Bind Scope regex_scope with regex.
Infix "·" := Cat (at level 60, right associativity) : regex_scope.

Definition Lit (c : ascii) : regex := Cls (Ascii.eqb c).
Definition Times (r : regex) (n : nat) : regex := Rep r n (Some n).
Definition Plus (r : regex) : regex := Rep r 1 None.

(** [\b] between the character before the position ([None] at the start
    of the string) and the character after it ([None] at the end). *)
Definition is_word (c : option ascii) : bool :=
  match c with Some c => Chr.word c | None => false end.

Definition boundary (prev next : option ascii) : bool :=
  xorb (is_word prev) (is_word next).

Definition below (cnt : nat) (hi : option nat) : bool :=
  match hi with Some h => cnt <? h | None => true end.

Section Matcher.
Context {A : Type}.

(** A continuation gets the character before the current position and
    the input that is left. *)
Definition cont : Type := option ascii -> str -> option A.

(** The loop of a repetition, [cnt] iterations done.  An iteration has
    to consume input; [fuel] is the length of the input when the
    repetition starts, so it never runs out before the input does. *)
Fixpoint rep_loop (body : option ascii -> str -> cont -> option A)
    (lo : nat) (hi : option nat) (k : cont)
    (fuel cnt : nat) (prev : option ascii) (s : str) : option A :=
  let stop := if lo <=? cnt then k prev s else None in
  match fuel with
  | 0 => stop
  | S fuel' =>
      if below cnt hi then
        match body prev s (fun prev' s' =>
                if length s' <? length s
                then rep_loop body lo hi k fuel' (S cnt) prev' s'
                else None) with
        | Some a => Some a
        | None => stop
        end
      else stop
  end.

Fixpoint run (r : regex) (prev : option ascii) (s : str) (k : cont)
    : option A :=
  match r with
  | Cls p =>
      match s with
      | c :: s' => if p c then k (Some c) s' else None
      | [] => None
      end
  | Bnd => if boundary prev (head s) then k prev s else None
  | Cat r1 r2 => run r1 prev s (fun prev' s' => run r2 prev' s' k)
  | Rep r lo hi => rep_loop (run r) lo hi k (length s) 0 prev s
  end.
End Matcher.

(** The length of the match of [r] that starts exactly here. *)
Definition match_here (r : regex) (prev : option ascii) (s : str)
    : option nat :=
  run r prev s (fun _ rest => Some (length s - length rest)).

(** A match object: its [start()] and [end()]. *)
Record Match : Type := mkMatch { m_start : nat; m_end : nat }.

(** [m.group(0)] of a match in [s]. *)
Definition group (s : str) (m : Match) : str :=
  Str.slice s (m_start m) (m_end m).

Fixpoint search_from (r : regex) (prev : option ascii) (s : str)
    (pos : nat) : option Match :=
  match match_here r prev s with
  | Some n => Some (mkMatch pos (pos + n))
  | None =>
      match s with
      | [] => None
      | c :: s' => search_from r (Some c) s' (S pos)
      end
  end.

(** [re.search(r, s)]: the leftmost match. *)
Definition search (r : regex) (s : str) : option Match :=
  search_from r None s 0.

(** [re.fullmatch(r, s)], as a truth value. *)
Definition fullmatch (r : regex) (s : str) : bool :=
  bool_decide (is_Some (run r None s
    (fun _ rest => if Str.truthy rest then None else Some tt))).

(** The matches from left to right, none overlapping another: [skip]
    characters of the last match are still to be passed.  After an empty
    match the scan moves on by one character. *)
Fixpoint finditer_from (r : regex) (skip : nat) (prev : option ascii)
    (s : str) (pos : nat) : list Match :=
  match skip with
  | S skip' =>
      match s with
      | [] => []
      | c :: s' => finditer_from r skip' (Some c) s' (S pos)
      end
  | 0 =>
      match match_here r prev s with
      | Some n =>
          mkMatch pos (pos + n) ::
          match s with
          | [] => []
          | c :: s' => finditer_from r (pred n) (Some c) s' (S pos)
          end
      | None =>
          match s with
          | [] => []
          | c :: s' => finditer_from r 0 (Some c) s' (S pos)
          end
      end
  end.

(** [r.finditer(s)] *)
Definition finditer (r : regex) (s : str) : list Match :=
  finditer_from r 0 None s 0.

Fixpoint sub_from (r : regex) (repl : str) (skip : nat)
    (prev : option ascii) (s : str) : str :=
  match skip with
  | S skip' =>
      match s with
      | [] => []
      | c :: s' => sub_from r repl skip' (Some c) s'
      end
  | 0 =>
      match match_here r prev s with
      | Some n =>
          repl ++
          match s with
          | [] => []
          | c :: s' =>
              (if n =? 0 then [c] else []) ++
              sub_from r repl (pred n) (Some c) s'
          end
      | None =>
          match s with
          | [] => []
          | c :: s' => c :: sub_from r repl 0 (Some c) s'
          end
      end
  end.

(** [re.sub(r, repl, s)] for a replacement without group references. *)
Definition sub (r : regex) (repl s : str) : str :=
  sub_from r repl 0 None s.

End Re.

Import Re.

(** ** The patterns of the module *)

Definition AZ09 (c : ascii) : bool := Chr.AZ c || Chr.d09 c.
Definition azAZ (c : ascii) : bool := Chr.az c || Chr.AZ c.

Definition digit : regex := Cls Chr.decimal.

(* \b[A-Z]{5}[A-Z0-9]{4}[A-Z]\b *)
Definition pan_re : regex :=
  (Bnd · Times (Cls Chr.AZ) 5 · Times (Cls AZ09) 4 · Cls Chr.AZ · Bnd)%re.
(* \b\d{12}\b *)
Definition uan_re : regex := (Bnd · Times digit 12 · Bnd)%re.
(* \b[A-Z]{1,3}/\d+/\d+\b *)
Definition pf_re : regex :=
  (Bnd · Rep (Cls Chr.AZ) 1 (Some 3) · Lit "/" · Plus digit · Lit "/"
       · Plus digit · Bnd)%re.
(* \b[A-Z]{4}0[A-Z0-9]{6}\b *)
Definition ifsc_re : regex :=
  (Bnd · Times (Cls Chr.AZ) 4 · Lit "0" · Times (Cls AZ09) 6 · Bnd)%re.
(* \b\d{2}-\d{2}-\d{4}\b *)
Definition date_re : regex :=
  (Bnd · Times digit 2 · Lit "-" · Times digit 2 · Lit "-" · Times digit 4
       · Bnd)%re.
(* \b\d{10,}\b *)
Definition long_digits_re : regex := (Bnd · Rep digit 10 None · Bnd)%re.
(* \b\d{1,3}\b *)
Definition days_re : regex := (Bnd · Rep digit 1 (Some 3) · Bnd)%re.
(* \s+ *)
Definition spaces_re : regex := Plus (Cls Chr.isspace).
(* \d{4,} *)
Definition empno_hint_re : regex := Rep digit 4 None.
(* [A-Za-z]+ *)
Definition alpha_re : regex := Plus (Cls azAZ).
(* [A-Z][a-zA-Z]+ *)
Definition cap_word : regex := (Cls Chr.AZ · Plus (Cls azAZ))%re.
(* [A-Z][a-zA-Z]+ [A-Z][a-zA-Z]+ *)
Definition hint_name_re : regex := (cap_word · Lit " " · cap_word)%re.
(* [A-Z][a-zA-Z]+(?: [A-Z][a-zA-Z]+){1,2} *)
Definition name_re : regex :=
  (cap_word · Rep (Lit " " · cap_word) 1 (Some 2))%re.
(* \d{4,8} *)
Definition empno_line_re : regex := Rep digit 4 (Some 8).

(** ** extract_filename_hints *)

(** A [pathlib.Path], as far as the module looks at it: its [stem], the
    final path component with the extension removed. *)
Record Path : Type := mkPath { stem : str }.

Definition extract_filename_hints (pdf_path : Path) : gmap string str :=
  let hints : gmap string str := ∅ in
  let parts := Str.split (stem pdf_path) "_" in
  if 3 <=? length parts then
    match Str.item_neg parts 1, Str.item_neg parts 2 with
    | Some last, Some prev =>
        let hints :=
          if fullmatch empno_hint_re last
          then <["EmpNo" := last]> hints else hints in
        if fullmatch alpha_re prev && (4 <=? length parts) then
          match Str.item_neg parts 3 with
          | Some third =>
              let maybe_name := third ++ py " " ++ prev in
              if fullmatch hint_name_re maybe_name
              then <["Name" := maybe_name]> hints else hints
          | None => hints
          end
        else hints
    | _, _ => hints
    end
  else hints.

(** ** The header/body cut

    The same loop stands in [parse_header_pairs] (lines 105-109) and in
    [rewrite_header] (lines 282-286). *)

Definition markers : list str :=
  [Chr.LF :: py "| "; Chr.LF :: py "## "; Chr.LF :: py "# "].

Definition cut_index (md_text : str) : nat :=
  fold_left
    (fun cut_idx marker =>
       match Str.find md_text marker with
       | Some i => Nat.min cut_idx i
       | None => cut_idx
       end)
    markers (length md_text).

(** ** parse_header_pairs *)

Definition role_keywords : list str :=
  map py ["Engineer"; "Manager"; "Director"; "Analyst"; "Developer";
          "Consultant"; "Associate"; "Lead"; "Specialist"; "Architect"]%string.

Definition setdefault (k : string) (v : str) (m : gmap string str)
    : gmap string str :=
  match m !! k with Some _ => m | None => <[k := v]> m end.

(** The body of [if join_line:] (lines 147-189). *)
Definition parse_join_line (join_line : str) (header_map : gmap string str)
    : gmap string str :=
  let date_m := search date_re join_line in
  let header_map :=
    match date_m with
    | Some m => <["Date of Joining" := group join_line m]> header_map
    | None => header_map
    end in
  let rest :=
    match date_m with
    | Some m => drop (m_end m) join_line
    | None => join_line
    end in
  let days_m := search days_re rest in
  let header_map :=
    match days_m with
    | Some m => <["Payable Days" := group rest m]> header_map
    | None => header_map
    end in
  let rest2 :=
    match days_m with
    | Some m => drop (m_end m) rest
    | None => rest
    end in
  let ifsc_m := search ifsc_re rest2 in
  let acct_m :=
    fold_left
      (fun acct_m m =>
         match ifsc_m with
         | Some i =>
             if m_start m <? m_start i then
               match acct_m with
               | None => Some m
               | Some a =>
                   if length (group rest2 a) <? length (group rest2 m)
                   then Some m else acct_m
               end
             else acct_m
         | None => acct_m
         end)
      (finditer long_digits_re rest2) None in
  let header_map :=
    match acct_m with
    | Some m => <["Bank Account" := group rest2 m]> header_map
    | None => header_map
    end in
  let header_map :=
    match ifsc_m with
    | Some m => <["IFS Code" := group rest2 m]> header_map
    | None => header_map
    end in
  let bank_name :=
    match days_m, acct_m with
    | Some d, Some a =>
        let between := Str.slice rest2 (m_end d) (m_start a) in
        Some (sub spaces_re (py " ") (Str.strip between))
    | _, _ => None
    end in
  let header_map :=
    match bank_name with
    | Some b => if Str.truthy b then <["Bank Name" := b]> header_map
                else header_map
    | None => header_map
    end in
  match ifsc_m with
  | Some m =>
      let after_ifsc :=
        sub spaces_re (py " ") (Str.strip (drop (m_end m) rest2)) in
      if Str.truthy after_ifsc then <["Location" := after_ifsc]> header_map
      else header_map
  | None => header_map
  end.

(** The statements of [parse_header_pairs] that write [header_map], block
    by block as the source comments them. *)

(* lines 122-124 *)
Definition set_pan (header_block : str) (header_map : gmap string str)
    : gmap string str :=
  match search pan_re header_block with
  | Some pan => <["PAN" := group header_block pan]> header_map
  | None => header_map
  end.

(* lines 127-130: after the loop [uan] holds the last match, if any *)
Definition last_uan (header_block : str) : option str :=
  fold_left (fun _ m => Some (group header_block m))
    (finditer uan_re header_block) None.

(* lines 126-132 *)
Definition set_uan (header_block : str) (header_map : gmap string str)
    : gmap string str :=
  match last_uan header_block with
  | Some u => if Str.truthy u then <["UAN" := u]> header_map else header_map
  | None => header_map
  end.

(* lines 135-137 *)
Definition set_pf (header_block : str) (header_map : gmap string str)
    : gmap string str :=
  match search pf_re header_block with
  | Some pf => <["PF No." := group header_block pf]> header_map
  | None => header_map
  end.

(* lines 141-146 *)
Definition set_join_fields (lines : list str) (header_map : gmap string str)
    : gmap string str :=
  let join_line :=
    List.find
      (fun ln => bool_decide (is_Some (search date_re ln))
                 && bool_decide (is_Some (search ifsc_re ln)))
      lines in
  match join_line with
  | Some ln => if Str.truthy ln then parse_join_line ln header_map
               else header_map
  | None => header_map
  end.

(* lines 204-207 *)
Definition set_designation (lines : list str) (header_map : gmap string str)
    : gmap string str :=
  match List.find
          (fun ln => existsb (fun k => Str.contains ln k) role_keywords
                     && (length (Str.split_ws ln) <=? 5))
          lines with
  | Some ln => setdefault "Designation" ln header_map
  | None => header_map
  end.

(* lines 210-216 *)
Definition set_name (lines : list str) (header_map : gmap string str)
    : gmap string str :=
  if bool_decide (is_Some (header_map !! "Name")) then header_map
  else
    match List.find
            (fun ln =>
               negb (bool_decide (Some ln = header_map !! "Designation"))
               && fullmatch name_re ln)
            lines with
    | Some ln => <["Name" := ln]> header_map
    | None => header_map
    end.

(* lines 223-227 *)
Definition used_nums (header_map : gmap string str) : list str :=
  fold_left
    (fun used k =>
       match header_map !! k with
       | Some v => if Str.truthy v && Str.isdigit v then v :: used else used
       | None => used
       end)
    ["UAN"; "Bank Account"; "Payable Days"]%string [].

(* lines 220-232 *)
Definition set_empno (lines : list str) (hints header_map : gmap string str)
    : gmap string str :=
  match hints !! "EmpNo" with
  | Some e => <["EmpNo" := e]> header_map
  | None =>
      let used := used_nums header_map in
      match List.find
              (fun ln => fullmatch empno_line_re ln
                         && negb (bool_decide (ln ∈ used)))
              lines with
      | Some ln => <["EmpNo" := ln]> header_map
      | None => header_map
      end
  end.

(* lines 235-236 *)
Definition set_name_hint (hints header_map : gmap string str)
    : gmap string str :=
  match hints !! "Name" with
  | Some n => <["Name" := n]> header_map
  | None => header_map
  end.

(* lines 110-111 *)
Definition header_block_of (md_text : str) : str :=
  take (cut_index md_text) md_text.

Definition header_lines (header_block : str) : list str :=
  map Str.strip
    (List.filter (fun ln => Str.truthy (Str.strip ln))
       (Str.splitlines header_block false)).

Definition parse_header_pairs (md_text : str) (pdf_path : Path)
    : gmap string str :=
  let header_map : gmap string str := ∅ in
  let header_block := header_block_of md_text in
  let lines := header_lines header_block in
  let header_map := set_pan header_block header_map in
  let header_map := set_uan header_block header_map in
  let header_map := set_pf header_block header_map in
  let header_map := set_join_fields lines header_map in
  let header_map := set_designation lines header_map in
  let header_map := set_name lines header_map in
  let hints := extract_filename_hints pdf_path in
  let header_map := set_empno lines hints header_map in
  set_name_hint hints header_map.

(** ** rewrite_header *)

Definition order : list string :=
  ["Name"; "Designation"; "EmpNo"; "PAN"; "UAN"; "PF No."; "E.S.I. No.";
   "Date of Joining"; "Payable Days"; "Bank Name"; "Bank Account";
   "IFS Code"; "Location"]%string.

(** f"**{key}**: {val}" *)
Definition field_line (key : string) (val : str) : str :=
  py "**" ++ py key ++ py "**: " ++ val.

(** The loop over [order] (lines 273-277). *)
Definition clean_lines (header_map : gmap string str) : list str :=
  fold_left
    (fun lines key =>
       match header_map !! key with
       | Some val => if Str.truthy val then lines ++ [field_line key val]
                     else lines
       | None => lines
       end)
    order [].

(* line 279 *)
Definition clean_header (header_map : gmap string str) : str :=
  Str.join [Chr.LF] (clean_lines header_map) ++ [Chr.LF; Chr.LF].

Definition rewrite_header (md_text : str) (header_map : gmap string str)
    : str :=
  let cut_idx := cut_index md_text in
  let rest := drop cut_idx md_text in
  clean_header header_map ++ rest.

(** ** _clean_first_table *)

(** [ln.lstrip().startswith("|")] *)
Definition is_table_line (ln : str) : bool :=
  Str.startswith (Str.lstrip ln) (py "|").

Definition is_alignment_row (s : str) : bool :=
  let body := Str.strip s in
  Str.startswith body (py "|")
  && forallb (fun c => bool_decide (c ∈ ["-"; ":"; " "]%char))
       (Str.strip (Str.replace body "|" [])).

(** The [for idx, ln in enumerate(lines)] loop looking for the table. *)
Fixpoint table_start (lines : list str) (idx : nat) : option nat :=
  match lines with
  | [] => None
  | ln :: lines' =>
      if is_table_line ln then Some idx else table_start lines' (S idx)
  end.

(** The [while] loop; [rest] is [lines[end:]]. *)
Fixpoint table_end (rest : list str) (end_ : nat) : nat :=
  match rest with
  | ln :: rest' => if is_table_line ln then table_end rest' (S end_) else end_
  | [] => end_
  end.

Definition auxiliary_labels : list str :=
  map py ["date of joining"; "payable days"; "bank name"; "bank account";
          "ifs code"; "location"]%string.

Definition key_tokens (header_keys : gmap string str) : list str :=
  map (fun kv => Str.lower (py kv.1)) (map_to_list header_keys)
  ++ auxiliary_labels.

(** The loop building [filtered] (lines 358-367). *)
Definition filter_rows (tokens : list str) (table_lines : list str)
    : list str :=
  fold_left
    (fun filtered ln =>
       let ln_lower := Str.lower ln in
       if is_alignment_row ln then filtered ++ [ln]
       else if existsb (fun tok => Str.contains ln_lower tok) tokens
            then filtered
            else filtered ++ [ln])
    table_lines [].

Definition _clean_first_table (md_text : str) (header_keys : gmap string str)
    : str :=
  let lines := Str.splitlines md_text true in
  match table_start lines 0 with
  | None => md_text
  | Some start =>
      let end_ := table_end (drop start lines) start in
      let table_lines := take (end_ - start) (drop start lines) in
      let filtered := filter_rows (key_tokens header_keys) table_lines in
      if bool_decide (filtered = table_lines) then md_text
      else concat (take start lines) ++ concat filtered
             ++ concat (drop end_ lines)
  end.

(** ** The text part of convert_with_fix (lines 411-431) *)

Definition canonical_keys : gmap string str :=
  list_to_map (map (fun k => (k, @nil ascii)) order).

Definition fix_markdown (md_text : str) (pdf_path : Path) : str :=
  let header_map := parse_header_pairs md_text pdf_path in
  let fixed_md := rewrite_header md_text header_map in
  _clean_first_table fixed_md canonical_keys.

(** ** The properties, in the words of the specification *)

(** The header of the specification's example, one item per line, and a
    file name that gives no hint. *)
Definition example_header : str :=
  Str.join [Chr.LF]
    (map py ["ABCDE1234F"; "123456789012"; "AB/1234/5678";
             "12-04-2019 26 State Bank 1234567890123 SBIN0001234 Mumbai"]%string).

Definition example_path : Path := mkPath (py "payslip").

(** An unbroken run of 4 or more digits. *)
Definition digit_run4 (s : str) : Prop :=
  4 <= length s /\ Forall (fun c => Chr.decimal c = true) s.

(** The tokens of the base name, split on underscore. *)
Definition name_tokens (pdf_path : Path) : list str :=
  Str.split (stem pdf_path) "_".

(** The character in front of the position reached after reading [t]. *)
Fixpoint prev_after (prev : option ascii) (t : str) : option ascii :=
  match t with
  | [] => prev
  | c :: t' => prev_after (Some c) t'
  end.

(** The keys [parse_join_line] writes, and those of the whole extraction. *)
Definition join_keys : list string :=
  ["Date of Joining"; "Payable Days"; "Bank Account"; "IFS Code";
   "Bank Name"; "Location"]%string.

Definition written_keys : list string :=
  ["PAN"; "UAN"; "PF No."]%string ++ join_keys
  ++ ["Designation"; "Name"; "EmpNo"]%string.

(** The lines of the header block as the specification words them: one
    line per field of the canonical order that is present in the mapping. *)
Definition present_lines (m : gmap string str) : list str :=
  omap (fun key => field_line key <$> m !! key) order.

(** The same with a field counted only when its value is not empty. *)
Definition nonempty_value (m : gmap string str) (key : string) : option str :=
  match m !! key with
  | Some val => if Str.truthy val then Some val else None
  | None => None
  end.

Definition nonempty_lines (m : gmap string str) : list str :=
  omap (fun key => field_line key <$> nonempty_value m key) order.

(** Lines, each ended by a line feed, followed by a blank line. *)
Definition block_of (lines : list str) : str :=
  concat (map (fun l => l ++ [Chr.LF]) lines) ++ [Chr.LF].

(** One of the three markers of the source starts at offset [i]. *)
Definition marker_at (md_text : str) (i : nat) : Prop :=
  exists m, m ∈ markers /\ Str.startswith (drop i md_text) m = true.

(** The text of a marker without the line feed in front of it stands at
    the very start of the document: a table row or a heading on the first
    line. *)
Definition first_line_marker (md_text : str) : Prop :=
  exists m, m ∈ markers /\ Str.startswith md_text (drop 1 m) = true.

(** A marker begins at offset [i], the first line included. *)
Definition marker_begins (md_text : str) (i : nat) : Prop :=
  marker_at md_text i \/ (i = 0 /\ first_line_marker md_text).

(** The longest prefix of [l] whose elements all satisfy [f], and the
    rest. *)
Fixpoint span {A} (f : A -> bool) (l : list A) : list A * list A :=
  match l with
  | [] => ([], [])
  | x :: l' =>
      if f x then let '(a, b) := span f l' in (x :: a, b) else ([], l)
  end.

(** [pre], [table], [post] cut the lines at the first contiguous run of
    delimiter-prefixed lines: no line of [pre] is delimiter-prefixed, every
    line of [table] is, and [post] does not start with one. *)
Definition is_first_table (lines pre table post : list str) : Prop :=
  lines = pre ++ table ++ post
  /\ Forall (fun ln => is_table_line ln = false) pre
  /\ Forall (fun ln => is_table_line ln = true) table
  /\ (forall ln, head post = Some ln -> is_table_line ln = false).

Definition first_table (lines : list str) : list str * list str * list str :=
  let '(pre, rest) := span (fun ln => negb (is_table_line ln)) lines in
  let '(table, post) := span is_table_line rest in
  (pre, table, post).

(** Whether the filter keeps a row of the table. *)
Definition row_kept (tokens : list str) (ln : str) : bool :=
  is_alignment_row ln
  || negb (existsb (fun tok => Str.contains (Str.lower ln) tok) tokens).

(** An alignment row in the words of the specification: the stripped text
    with every delimiter removed has no character but '-', ':' and space. *)
Definition alignment_text (ln : str) : bool :=
  forallb (fun c => bool_decide (c ∈ ["-"; ":"; " "]%char))
    (Str.replace (Str.strip ln) "|" []).



(** The character in front of offset [i], if any. *)
Definition char_before (s : str) (i : nat) : option ascii :=
  match i with 0 => None | S j => s !! j end.

(** There is a word boundary at offset [i] of [s]. *)
Definition word_boundary_at (s : str) (i : nat) : bool :=
  boundary (char_before s i) (s !! i).

(** A 12-digit token stands at offset [i]: the twelve characters from [i]
    on are decimal digits, with a word boundary in front and behind. *)
Definition uan_token_at (s : str) (i : nat) : Prop :=
  length (Str.slice s i (i + 12)) = 12
  /\ Forall (fun c => Chr.decimal c = true) (Str.slice s i (i + 12))
  /\ word_boundary_at s i = true
  /\ word_boundary_at s (i + 12) = true.

(** The same, read off the input that is left at a position. *)
Definition uan_here (prev : option ascii) (s : str) : bool :=
  boundary prev (head s)
  && (12 <=? length s)
  && forallb Chr.decimal (take 12 s)
  && boundary (prev_after prev (take 12 s)) (head (drop 12 s)).

(** Whether a 12-digit token stands at offset [i] of [s], computed. *)
Definition uan_token_atb (s : str) (i : nat) : bool :=
  uan_here (char_before s i) (drop i s).

(** No value of the mapping holds a line feed. *)
Definition lf_free (m : gmap string str) : Prop :=
  forall k v, m !! k = Some v -> Chr.LF ∉ v.

(** Every line feed of [s] that has a character behind it has '*' or another
    line feed there: no line of [s] after the first starts a table row or a
    heading. *)
Fixpoint lf_ok (s : str) : bool :=
  match s with
  | [] => true
  | c :: s' =>
      (if Ascii.eqb c Chr.LF then
         match s' with
         | x :: _ => Ascii.eqb x "*" || Ascii.eqb x Chr.LF
         | [] => true
         end
       else true)
      && lf_ok s'
  end.

(** A document on which the second pass differs from the first: a name, a
    table of one header-like row, a line of text and a second table. *)
Definition two_tables : str :=
  concat (map (fun l => py l ++ [Chr.LF])
    ["John Smith"; "| pan |"; "text"; "| name |"]%string).


(** Every character that a class of the pattern admits satisfies [Q]. *)
Fixpoint reads_only (Q : ascii -> Prop) (r : regex) : Prop :=
  match r with
  | Cls p => forall c, p c = true -> Q c
  | Bnd => True
  | Cat r1 r2 => reads_only Q r1 /\ reads_only Q r2
  | Rep r _ _ => reads_only Q r
  end.

(** No class of the pattern admits the line feed. *)
Fixpoint lf_excluded (r : regex) : bool :=
  match r with
  | Cls p => negb (p Chr.LF)
  | Bnd => true
  | Cat r1 r2 => lf_excluded r1 && lf_excluded r2
  | Rep r _ _ => lf_excluded r
  end.

(** The least and the greatest number of characters a match of the pattern
    can hold ([None]: no bound). *)
Fixpoint min_len (r : regex) : nat :=
  match r with
  | Cls _ => 1
  | Bnd => 0
  | Cat r1 r2 => min_len r1 + min_len r2
  | Rep r lo _ => lo * min_len r
  end.

Fixpoint max_len (r : regex) : option nat :=
  match r with
  | Cls _ => Some 1
  | Bnd => Some 0
  | Cat r1 r2 =>
      match max_len r1, max_len r2 with
      | Some a, Some b => Some (a + b)
      | _, _ => None
      end
  | Rep r _ hi =>
      match hi, max_len r with
      | Some h, Some m => Some (h * m)
      | _, _ => None
      end
  end.

Definition at_most (n : nat) (bound : option nat) : Prop :=
  match bound with Some m => n <= m | None => True end.

(** The character in front of offset [j] of the input [s] that is left at
    a position with [prev] in front of it. *)
Definition prev_at (prev : option ascii) (s : str) (j : nat) : option ascii :=
  match j with 0 => prev | S j' => s !! j' end.

(** The locals of the join-line block of [parse_header_pairs], by name:
    [rest], [days_m], [rest2], [ifsc_m], [acct_m] and the two texts that
    are collapsed (lines 147-187). *)
Definition join_rest (join_line : str) : str :=
  match search date_re join_line with
  | Some m => drop (m_end m) join_line
  | None => join_line
  end.

Definition join_days (join_line : str) : option Match :=
  search days_re (join_rest join_line).

Definition join_rest2 (join_line : str) : str :=
  match join_days join_line with
  | Some m => drop (m_end m) (join_rest join_line)
  | None => join_rest join_line
  end.

Definition join_ifsc (join_line : str) : option Match :=
  search ifsc_re (join_rest2 join_line).

(** One turn of the loop over the long digit runs (lines 164-168). *)
Definition pick_account (rest2 : str) (ifsc_m : option Match)
    (acct_m : option Match) (m : Match) : option Match :=
  match ifsc_m with
  | Some i =>
      if m_start m <? m_start i then
        match acct_m with
        | None => Some m
        | Some a =>
            if length (group rest2 a) <? length (group rest2 m)
            then Some m else acct_m
        end
      else acct_m
  | None => acct_m
  end.

Definition join_account (join_line : str) : option Match :=
  fold_left (pick_account (join_rest2 join_line) (join_ifsc join_line))
    (finditer long_digits_re (join_rest2 join_line)) None.

Definition join_bank_name (join_line : str) : option str :=
  match join_days join_line, join_account join_line with
  | Some d, Some a =>
      Some (sub spaces_re (py " ")
              (Str.strip (Str.slice (join_rest2 join_line)
                            (m_end d) (m_start a))))
  | _, _ => None
  end.

Definition join_location (join_line : str) : option str :=
  match join_ifsc join_line with
  | Some m =>
      Some (sub spaces_re (py " ")
              (Str.strip (drop (m_end m) (join_rest2 join_line))))
  | None => None
  end.

(** [header_map[key] = val] under [if val:], for an optional text. *)
Definition put_text (key : string) (val : option str)
    (header_map : gmap string str) : gmap string str :=
  match val with
  | Some v => if Str.truthy v then <[key := v]> header_map else header_map
  | None => header_map
  end.

(** [header_map[key] = m.group(0)] under [if m:]. *)
Definition put_group (key : string) (s : str) (m : option Match)
    (header_map : gmap string str) : gmap string str :=
  match m with
  | Some m => <[key := group s m]> header_map
  | None => header_map
  end.

(** The header map before the block that sets Name, and before the one
    that sets EmpNo. *)
Definition map_before_join (md_text : str) : gmap string str :=
  set_pf (header_block_of md_text)
    (set_uan (header_block_of md_text)
       (set_pan (header_block_of md_text) ∅)).

Definition map_before_name (md_text : str) : gmap string str :=
  set_designation (header_lines (header_block_of md_text))
    (set_join_fields (header_lines (header_block_of md_text))
       (map_before_join md_text)).

Definition map_before_empno (md_text : str) : gmap string str :=
  set_name (header_lines (header_block_of md_text)) (map_before_name md_text).

(** What the value that [parse_header_pairs] stores under a key looks
    like: never empty, and for the identifiers a length and a class of
    characters. *)
Definition well_shaped (k : string) (v : str) : Prop :=
  v <> []
  /\ (k = "PAN"%string ->
      length v = 10 /\ Forall (fun c => AZ09 c = true) v)
  /\ (k = "UAN"%string ->
      length v = 12 /\ Forall (fun c => Chr.decimal c = true) v)
  /\ (k = "PF No."%string -> 5 <= length v)
  /\ (k = "Date of Joining"%string -> length v = 10)
  /\ (k = "Payable Days"%string ->
      1 <= length v <= 3 /\ Forall (fun c => Chr.decimal c = true) v)
  /\ (k = "Bank Account"%string ->
      10 <= length v /\ Forall (fun c => Chr.decimal c = true) v)
  /\ (k = "IFS Code"%string ->
      length v = 11 /\ Forall (fun c => AZ09 c = true) v).

Definition shaped (m : gmap string str) : Prop :=
  forall k v, m !! k = Some v -> well_shaped k v.



(** No character of the text is a line boundary of [str.splitlines]: the
    text stays on one line. *)
Definition one_line (v : str) : Prop :=
  Forall (fun c => Chr.linebreak c = false) v.

Definition one_line_values (m : gmap string str) : Prop :=
  forall k v, m !! k = Some v -> one_line v.

(** * Properties *)

(** ** Maps: each block writes its own keys only *)

Lemma set_pan_frame hb (m : gmap string str) (k : string) :
  k <> "PAN"%string -> set_pan hb m !! k = m !! k.
Proof.
  intros Hk. unfold set_pan. destruct (search pan_re hb); [|done].
  by rewrite lookup_insert_ne.
Qed.

Lemma set_uan_frame hb (m : gmap string str) (k : string) :
  k <> "UAN"%string -> set_uan hb m !! k = m !! k.
Proof.
  intros Hk. unfold set_uan. destruct (last_uan hb) as [u|]; [|done].
  destruct (Str.truthy u); [|done]. by rewrite lookup_insert_ne.
Qed.

Lemma set_pf_frame hb (m : gmap string str) (k : string) :
  k <> "PF No."%string -> set_pf hb m !! k = m !! k.
Proof.
  intros Hk. unfold set_pf. destruct (search pf_re hb); [|done].
  by rewrite lookup_insert_ne.
Qed.

Lemma parse_join_line_frame ln (m : gmap string str) (k : string) :
  k ∉ join_keys -> parse_join_line ln m !! k = m !! k.
Proof.
  unfold join_keys. rewrite !not_elem_of_cons. intros (?&?&?&?&?&?&_).
  unfold parse_join_line. cbv zeta.
  repeat case_match; rewrite ?lookup_insert_ne by done; done.
Qed.

Lemma set_join_fields_frame lines (m : gmap string str) (k : string) :
  k ∉ join_keys -> set_join_fields lines m !! k = m !! k.
Proof.
  intros Hk. unfold set_join_fields. cbv zeta.
  destruct (List.find _ lines) as [ln|]; [|done].
  destruct (Str.truthy ln); [|done]. by apply parse_join_line_frame.
Qed.

Lemma set_designation_frame lines (m : gmap string str) (k : string) :
  k <> "Designation"%string -> set_designation lines m !! k = m !! k.
Proof.
  intros Hk. unfold set_designation, setdefault.
  repeat case_match; rewrite ?lookup_insert_ne by done; done.
Qed.

Lemma set_name_frame lines (m : gmap string str) (k : string) :
  k <> "Name"%string -> set_name lines m !! k = m !! k.
Proof.
  intros Hk. unfold set_name.
  repeat case_match; rewrite ?lookup_insert_ne by done; done.
Qed.

Lemma set_empno_frame lines hints (m : gmap string str) (k : string) :
  k <> "EmpNo"%string -> set_empno lines hints m !! k = m !! k.
Proof.
  intros Hk. unfold set_empno. cbv zeta.
  repeat case_match; rewrite ?lookup_insert_ne by done; done.
Qed.

Lemma set_name_hint_frame hints (m : gmap string str) (k : string) :
  k <> "Name"%string -> set_name_hint hints m !! k = m !! k.
Proof.
  intros Hk. unfold set_name_hint.
  repeat case_match; rewrite ?lookup_insert_ne by done; done.
Qed.

(** A key that no block writes is absent from the result. *)
Lemma parse_header_pairs_unwritten md_text pdf_path (k : string) :
  k ∉ written_keys -> parse_header_pairs md_text pdf_path !! k = None.
Proof.
  unfold written_keys. rewrite !not_elem_of_app, !not_elem_of_cons.
  intros ((?&?&?&_)&Hj&(?&?&?&_)).
  unfold parse_header_pairs. cbv zeta.
  rewrite set_name_hint_frame, set_empno_frame, set_name_frame,
    set_designation_frame, set_join_fields_frame, set_pf_frame,
    set_uan_frame, set_pan_frame by done.
  apply lookup_empty.
Qed.

(** What is left under "UAN" is what the UAN block wrote. *)
Lemma parse_header_pairs_uan md_text pdf_path :
  parse_header_pairs md_text pdf_path !! "UAN"%string
  = (last_uan (header_block_of md_text)) ≫= (fun u => if Str.truthy u then Some u else None).
Proof.
  unfold parse_header_pairs. cbv zeta.
  rewrite set_name_hint_frame, set_empno_frame, set_name_frame,
    set_designation_frame by done.
  rewrite set_join_fields_frame by (apply (bool_decide_unpack _); by vm_compute).
  rewrite set_pf_frame by done.
  unfold set_uan. destruct (last_uan _) as [u|]; simpl.
  - destruct (Str.truthy u).
    + by rewrite lookup_insert_eq.
    + by rewrite set_pan_frame.
  - by rewrite set_pan_frame.
Qed.

(** ** The matcher *)

Lemma rep_loop_S {A} body lo hi (k : @cont A) fuel cnt prev s :
  rep_loop body lo hi k (S fuel) cnt prev s
  = let stop := if lo <=? cnt then k prev s else None in
    if below cnt hi then
      match body prev s (fun prev' s' =>
              if length s' <? length s
              then rep_loop body lo hi k fuel (S cnt) prev' s'
              else None) with
      | Some a => Some a
      | None => stop
      end
    else stop.
Proof. reflexivity. Qed.

Lemma run_cls {A} (p : ascii -> bool) prev c s (k : @cont A) :
  run (Cls p) prev (c :: s) k = if p c then k (Some c) s else None.
Proof. reflexivity. Qed.

Lemma run_cat {A} r1 r2 prev s (k : @cont A) :
  run (Cat r1 r2) prev s k = run r1 prev s (fun prev' s' => run r2 prev' s' k).
Proof. reflexivity. Qed.

Lemma run_bnd {A} prev s (k : @cont A) :
  run Bnd prev s k = if boundary prev (head s) then k prev s else None.
Proof. reflexivity. Qed.

Lemma run_rep {A} r lo hi prev s (k : @cont A) :
  run (Rep r lo hi) prev s k = rep_loop (run r) lo hi k (length s) 0 prev s.
Proof. reflexivity. Qed.


(** More fuel than the length of the input changes nothing: a repetition
    never stops for want of fuel. *)

Lemma rep_loop_ext {A} (body : option ascii -> str -> @cont A -> option A)
    lo hi (k1 k2 : @cont A) :
  (forall prev s j1 j2, (forall p t, j1 p t = j2 p t) ->
     body prev s j1 = body prev s j2) ->
  (forall p t, k1 p t = k2 p t) ->
  forall fuel cnt prev s,
    rep_loop body lo hi k1 fuel cnt prev s
    = rep_loop body lo hi k2 fuel cnt prev s.
Proof.
  intros Hbody Hk. induction fuel as [|fuel IH]; intros cnt prev s.
  - simpl. by rewrite Hk.
  - rewrite !rep_loop_S. cbv zeta. rewrite Hk.
    destruct (below cnt hi); [|done].
    rewrite (Hbody prev s _
               (fun prev' s' =>
                  if length s' <? length s
                  then rep_loop body lo hi k2 fuel (S cnt) prev' s'
                  else None)); [done|].
    intros p t. destruct (length t <? length s); [apply IH|done].
Qed.

Lemma run_ext {A} (r : regex) :
  forall prev s (k1 k2 : @cont A),
    (forall p t, k1 p t = k2 p t) -> run r prev s k1 = run r prev s k2.
Proof.
  induction r as [p| |r1 IH1 r2 IH2|r IH lo hi]; intros prev s k1 k2 Hk.
  - destruct s as [|c s]; [done|]. rewrite !run_cls. by rewrite Hk.
  - rewrite !run_bnd. by rewrite Hk.
  - rewrite !run_cat. apply IH1. intros p t. by apply IH2.
  - rewrite !run_rep. by apply rep_loop_ext.
Qed.

Lemma rep_loop_none {A} (body : option ascii -> str -> @cont A -> option A)
    lo hi (k : @cont A) :
  (forall prev s j, (forall p t, j p t = None) -> body prev s j = None) ->
  (forall p t, k p t = None) ->
  forall fuel cnt prev s, rep_loop body lo hi k fuel cnt prev s = None.
Proof.
  intros Hbody Hk. induction fuel as [|fuel IH]; intros cnt prev s.
  - simpl. rewrite Hk. by destruct (lo <=? cnt).
  - rewrite rep_loop_S. cbv zeta. rewrite Hk.
    rewrite Hbody.
    + by destruct (below cnt hi), (lo <=? cnt).
    + intros p t. destruct (length t <? length s); [apply IH|done].
Qed.

(** Every success goes through the continuation. *)
Lemma run_none {A} (r : regex) :
  forall prev s (k : @cont A),
    (forall p t, k p t = None) -> run r prev s k = None.
Proof.
  induction r as [p| |r1 IH1 r2 IH2|r IH lo hi]; intros prev s k Hk.
  - destruct s as [|c s]; [done|]. rewrite run_cls, Hk. by destruct (p c).
  - rewrite run_bnd, Hk. by destruct (boundary _ _).
  - rewrite run_cat. apply IH1. intros p t. by apply IH2.
  - rewrite run_rep. by apply rep_loop_none.
Qed.

Lemma rep_loop_fuel_S {A} (r : regex) lo hi (k : @cont A) :
  forall fuel cnt prev s,
    length s <= fuel ->
    rep_loop (run r) lo hi k (S fuel) cnt prev s
    = rep_loop (run r) lo hi k fuel cnt prev s.
Proof.
  induction fuel as [|fuel IH]; intros cnt prev s Hlen.
  - destruct s; [|simpl in Hlen; lia].
    rewrite rep_loop_S. cbv zeta. rewrite run_none.
    + simpl. by destruct (below cnt hi).
    + intros p t. by destruct (length t).
  - rewrite (rep_loop_S _ _ _ _ (S fuel)), (rep_loop_S _ _ _ _ fuel).
    cbv zeta. destruct (below cnt hi); [|done].
    rewrite (run_ext r prev s _
               (fun prev' s' =>
                  if length s' <? length s
                  then rep_loop (run r) lo hi k fuel (S cnt) prev' s'
                  else None)); [done|].
    intros p t. destruct (length t <? length s) eqn:E; [|done].
    apply Nat.ltb_lt in E. apply IH. lia.
Qed.

Lemma rep_loop_fuel_enough {A} (r : regex) lo hi (k : @cont A) prev s :
  forall extra,
    rep_loop (run r) lo hi k (length s + extra) 0 prev s
    = run (Rep r lo hi) prev s k.
Proof.
  rewrite run_rep. induction extra as [|extra IH].
  - by rewrite Nat.add_0_r.
  - rewrite Nat.add_succ_r, rep_loop_fuel_S by lia. apply IH.
Qed.

Lemma forallb_of_Forall {A} (f : A -> bool) (l : list A) :
  Forall (fun x => f x = true) l -> forallb f l = true.
Proof. induction 1 as [|x l Hx _ IH]; simpl; [done|]. by rewrite Hx, IH. Qed.

Lemma prev_after_app prev t c : prev_after prev (t ++ [c]) = Some c.
Proof. revert prev. induction t as [|d t IH]; intros prev; simpl; auto. Qed.

(** An unbounded repetition of a class on input that is all in the class
    runs to the end of the input, and the match stands as soon as the rest
    of the pattern accepts there. *)
Lemma rep_cls_all {A} (p : ascii -> bool) lo (k : @cont A) a s :
  forall fuel cnt prev,
    length s <= fuel ->
    forallb p s = true ->
    lo <= cnt + length s ->
    k (prev_after prev s) [] = Some a ->
    rep_loop (run (Cls p)) lo None k fuel cnt prev s = Some a.
Proof.
  induction s as [|c s IH]; intros fuel cnt prev Hfuel Hall Hlo Hk; simpl in *.
  - assert ((lo <=? cnt) = true) as Hle by (apply Nat.leb_le; lia).
    destruct fuel; simpl; rewrite Hle; done.
  - destruct fuel as [|fuel]; [lia|]. simpl.
    apply andb_prop in Hall as [Hc Hall]. rewrite Hc.
    assert ((length s <? S (length s)) = true) as -> by (apply Nat.ltb_lt; lia).
    rewrite (IH fuel (S cnt) (Some c)); [done|lia|done|lia|done].
Qed.

Lemma fullmatch_rep_cls (p : ascii -> bool) lo s :
  lo <= length s -> forallb p s = true ->
  fullmatch (Rep (Cls p) lo None) s = true.
Proof.
  intros Hlo Hall. unfold fullmatch. apply bool_decide_eq_true.
  exists tt. simpl. apply rep_cls_all; auto.
Qed.

(** ** C1: the specification's example *)

(** C1 (the code at the example): on the example header the extraction
    returns every field of the specification's example except Bank Name,
    for which it returns "ate Bank" in place of "State Bank": the text
    between the Payable-Days token and the account is cut with the end
    offset of the token in [rest] applied to [rest2]. *)
Theorem C1_example_bank_name :
  let m := parse_header_pairs example_header example_path in
  m !! "PAN"%string = Some (py "ABCDE1234F")
  /\ m !! "UAN"%string = Some (py "123456789012")
  /\ m !! "PF No."%string = Some (py "AB/1234/5678")
  /\ m !! "Date of Joining"%string = Some (py "12-04-2019")
  /\ m !! "Payable Days"%string = Some (py "26")
  /\ m !! "Bank Account"%string = Some (py "1234567890123")
  /\ m !! "IFS Code"%string = Some (py "SBIN0001234")
  /\ m !! "Location"%string = Some (py "Mumbai")
  /\ m !! "Bank Name"%string = Some (py "ate Bank")
  /\ m !! "Bank Name"%string <> Some (py "State Bank").
Proof. vm_compute. repeat split; try reflexivity. discriminate. Qed.

(** ** C3: the employee number from the file name *)

Lemma item_neg_last {A} (l : list A) : Str.item_neg l 1 = last l.
Proof.
  unfold Str.item_neg. rewrite last_lookup.
  destruct l as [|x l]; [done|]. simpl.
  by rewrite Nat.sub_0_r.
Qed.

Lemma item_neg_is_Some {A} (l : list A) k :
  1 <= k <= length l -> is_Some (Str.item_neg l k).
Proof.
  intros [H1 H2]. unfold Str.item_neg.
  rewrite (proj2 (Nat.leb_le _ _) H1), (proj2 (Nat.leb_le _ _) H2).
  simpl. apply lookup_lt_is_Some. lia.
Qed.

(** C3 (as stated, refuted): the base name "x_1234" ends in a token of four
    digits, yet no EmpNo is returned: the function looks at the tokens only
    when there are at least three of them. *)
Lemma C3_two_tokens_no_empno :
  let p := mkPath (py "x_1234") in
  ~ (forall tok, last (name_tokens p) = Some tok -> digit_run4 tok ->
       extract_filename_hints p !! "EmpNo"%string = Some tok).
Proof.
  intros p H. specialize (H (py "1234")).
  assert (extract_filename_hints p !! "EmpNo"%string = None) as Hnone
    by (vm_compute; reflexivity).
  rewrite H in Hnone; [discriminate|vm_compute; reflexivity|].
  split; [simpl; lia|]. repeat constructor.
Qed.

(** C3 (amended): when the base name has at least three underscore-separated
    tokens and the last one is an unbroken run of 4 or more digits, the
    returned mapping has that token under EmpNo. *)
Theorem C3_empno_from_last_token (pdf_path : Path) (tok : str) :
  3 <= length (name_tokens pdf_path) ->
  last (name_tokens pdf_path) = Some tok ->
  digit_run4 tok ->
  extract_filename_hints pdf_path !! "EmpNo"%string = Some tok.
Proof.
  unfold name_tokens. intros Hlen Hlast [H4 Hdig].
  unfold extract_filename_hints. cbv zeta.
  apply Nat.leb_le in Hlen as Hlen'. rewrite Hlen'.
  rewrite item_neg_last, Hlast.
  destruct (item_neg_is_Some (Str.split (stem pdf_path) "_") 2) as [prev ->];
    [lia|].
  assert (fullmatch empno_hint_re tok = true) as ->.
  { apply fullmatch_rep_cls; [done|]. by apply forallb_of_Forall. }
  repeat case_match; rewrite ?lookup_insert_ne by done;
    by rewrite lookup_insert_eq.
Qed.

Lemma C3_empno_from_last_token_witness :
  extract_filename_hints (mkPath (py "MT_Payslip_6_2024_Mainak_Chhari_527564"))
    !! "EmpNo"%string = Some (py "527564").
Proof.
  apply C3_empno_from_last_token.
  - vm_compute. lia.
  - vm_compute. reflexivity.
  - split; [simpl; lia|]. repeat constructor.
Defined.

(** ** C10: no E.S.I. number *)

Lemma fold_append_flat_map {A B} (f : A -> list B) (l : list A) (acc : list B) :
  fold_left (fun acc x => acc ++ f x) l acc = acc ++ flat_map f l.
Proof.
  revert acc. induction l as [|x l IH]; intros acc; simpl.
  - by rewrite app_nil_r.
  - by rewrite IH, app_assoc.
Qed.

Lemma fold_left_pointwise {A B} (f g : B -> A -> B) (l : list A) (acc : B) :
  (forall b x, f b x = g b x) -> fold_left f l acc = fold_left g l acc.
Proof.
  intros Hfg. revert acc. induction l as [|x l IH]; intros acc; simpl; [done|].
  by rewrite Hfg, IH.
Qed.

(** The line of one field, if the loop of [rewrite_header] emits one. *)
Lemma clean_lines_flat_map (m : gmap string str) :
  clean_lines m
  = flat_map (fun key => match m !! key with
                         | Some val => if Str.truthy val
                                       then [field_line key val] else []
                         | None => []
                         end) order.
Proof.
  unfold clean_lines.
  rewrite <- (app_nil_l (flat_map _ _)), <- fold_append_flat_map.
  apply fold_left_pointwise. intros acc key.
  destruct (m !! key) as [v|]; [destruct (Str.truthy v)|]; by rewrite ?app_nil_r.
Qed.

Lemma clean_lines_nonempty_lines (m : gmap string str) :
  clean_lines m = nonempty_lines m.
Proof.
  rewrite clean_lines_flat_map. unfold nonempty_lines, nonempty_value.
  induction order as [|key l IH]; simpl; [done|]. rewrite IH.
  destruct (m !! key) as [v|]; [destruct (Str.truthy v)|]; done.
Qed.

(** C10: whatever the document and the file name, the extracted mapping has
    no entry under "E.S.I. No.", and none of the header lines that
    [rewrite_header] builds from it is an "**E.S.I. No.**: ..." line. *)
Theorem C10_no_esi_field (md_text : str) (pdf_path : Path) :
  parse_header_pairs md_text pdf_path !! "E.S.I. No."%string = None
  /\ forall ln, ln ∈ clean_lines (parse_header_pairs md_text pdf_path) ->
       Str.startswith ln (py "**E.S.I. No.**: ") = false.
Proof.
  assert (parse_header_pairs md_text pdf_path !! "E.S.I. No."%string = None)
    as Hesi.
  { apply parse_header_pairs_unwritten.
    apply (bool_decide_unpack _). by vm_compute. }
  split; [done|]. intros ln. rewrite clean_lines_flat_map.
  rewrite list_elem_of_In, in_flat_map. intros (key & Hkey & Hln).
  apply list_elem_of_In in Hkey. apply list_elem_of_In in Hln.
  unfold order in Hkey.
  repeat (apply elem_of_cons in Hkey as [->|Hkey]);
    try (by apply elem_of_nil in Hkey);
    try (rewrite Hesi in Hln; by apply elem_of_nil in Hln);
    (revert Hln;
     match goal with
     | |- _ ∈ match ?x with _ => _ end -> _ => destruct x as [v|]
     end; [destruct (Str.truthy v)|];
     intros Hln; try (by apply elem_of_nil in Hln);
     apply list_elem_of_singleton in Hln as ->; by vm_compute).
Qed.

(** ** C6: the header block *)

Lemma join_lines_block (l : str) (lines : list str) :
  Str.join [Chr.LF] (l :: lines) ++ [Chr.LF]
  = concat (map (fun l => l ++ [Chr.LF]) (l :: lines)).
Proof.
  revert l. induction lines as [|l' lines IH]; intros l.
  - simpl. by rewrite app_nil_r.
  - change (Str.join [Chr.LF] (l :: l' :: lines))
      with (l ++ [Chr.LF] ++ Str.join [Chr.LF] (l' :: lines)).
    rewrite <- !app_assoc, IH. cbn [map concat]. by rewrite <- !app_assoc.
Qed.

Lemma clean_header_block (m : gmap string str) :
  clean_header m
  = block_of (nonempty_lines m)
    ++ match nonempty_lines m with [] => [Chr.LF] | _ :: _ => [] end.
Proof.
  unfold clean_header, block_of. rewrite clean_lines_nonempty_lines.
  destruct (nonempty_lines m) as [|l lines] eqn:E.
  - reflexivity.
  - change [Chr.LF; Chr.LF] with ([Chr.LF] ++ [Chr.LF]).
    by rewrite app_assoc, join_lines_block, app_nil_r.
Qed.

(** C6 (as stated, refuted): a mapping that has Name with the empty string
    as its value gets no "**Name**: " line, although the field is present. *)
Lemma C6_empty_value_no_line :
  let m : gmap string str := {["Name"%string := []]} in
  m !! "Name"%string = Some []
  /\ ~ (exists tail, rewrite_header [] m = block_of (present_lines m) ++ tail).
Proof.
  split; [reflexivity|]. intros [tail H]. vm_compute in H. discriminate.
Qed.

(** C6 (amended): the output of [rewrite_header] begins with one
    "**<FieldName>**: <value>" line per field of the canonical order that
    the mapping gives a non-empty value, in that order and with nothing for
    the other fields, followed by a blank line; the text from the cut index
    on comes after it. *)
Theorem C6_header_block_in_order (md_text : str) (header_map : gmap string str) :
  rewrite_header md_text header_map
  = block_of (nonempty_lines header_map)
    ++ match nonempty_lines header_map with [] => [Chr.LF] | _ :: _ => [] end
    ++ drop (cut_index md_text) md_text.
Proof.
  unfold rewrite_header. cbv zeta.
  by rewrite clean_header_block, <- app_assoc.
Qed.

(** ** C4: the cut index *)

Lemma find_Some (sub : str) (s : str) :
  forall i, Str.find s sub = Some i ->
    Str.startswith (drop i s) sub = true
    /\ forall j, j < i -> Str.startswith (drop j s) sub = false.
Proof.
  induction s as [|c s IH]; intros i; cbn [Str.find].
  - destruct (Str.startswith [] sub) eqn:E; [|done].
    intros [= <-]. split; [done|]. intros j Hj. lia.
  - destruct (Str.startswith (c :: s) sub) eqn:E.
    + intros [= <-]. split; [done|]. intros j Hj. lia.
    + destruct (Str.find s sub) as [i'|]; [|done]. simpl. intros [= <-].
      destruct (IH i' eq_refl) as [H1 H2]. split; [done|].
      intros [|j] Hj; [done|]. simpl. apply H2. lia.
Qed.

Lemma find_None (sub : str) (s : str) :
  Str.find s sub = None -> forall j, Str.startswith (drop j s) sub = false.
Proof.
  induction s as [|c s IH]; cbn [Str.find].
  - destruct (Str.startswith [] sub) eqn:E; [done|].
    intros _ j. by rewrite drop_nil.
  - destruct (Str.startswith (c :: s) sub) eqn:E; [done|].
    destruct (Str.find s sub) as [i'|] eqn:F; [done|]. intros _ [|j]; [done|].
    simpl. by apply IH.
Qed.

Lemma find_lt_length (sub : str) (s : str) i :
  sub <> [] -> Str.find s sub = Some i -> i < length s.
Proof.
  intros Hsub Hf. apply find_Some in Hf as [Hf _].
  destruct (decide (i < length s)) as [|Hge]; [done|].
  rewrite drop_ge in Hf by lia. destruct sub; done.
Qed.

(** The loop over the markers keeps the least offset seen so far. *)
Lemma cut_fold (md_text : str) (ms : list str) :
  forall acc,
    let c := fold_left
               (fun cut_idx marker =>
                  match Str.find md_text marker with
                  | Some i => Nat.min cut_idx i
                  | None => cut_idx
                  end) ms acc in
    c <= acc
    /\ (forall m i, m ∈ ms -> Str.startswith (drop i md_text) m = true -> c <= i)
    /\ (c = acc \/ exists m, m ∈ ms /\ Str.startswith (drop c md_text) m = true).
Proof.
  induction ms as [|m ms IH]; intros acc; simpl.
  - split; [lia|]. split; [|by left]. intros m i Hm. by apply elem_of_nil in Hm.
  - set (acc' := match Str.find md_text m with
                 | Some i => Nat.min acc i
                 | None => acc
                 end).
    destruct (IH acc') as (Hle & Hall & Hat).
    assert (acc' <= acc) as Hacc.
    { unfold acc'. destruct (Str.find md_text m); lia. }
    split; [lia|]. split.
    + intros m' i Hm' Hst. apply elem_of_cons in Hm' as [->|Hm'].
      * enough (acc' <= i) by lia. unfold acc'.
        destruct (Str.find md_text m) as [i0|] eqn:F.
        -- apply find_Some in F as [_ F].
           destruct (decide (i < i0)) as [Hlt|]; [|lia].
           rewrite (F i Hlt) in Hst. discriminate.
        -- rewrite (find_None _ _ F i) in Hst. discriminate.
      * by apply (Hall m').
    + destruct Hat as [Hc|(m' & Hm' & Hst)].
      * subst acc'. destruct (Str.find md_text m) as [i0|] eqn:F.
        -- destruct (Nat.min_spec acc i0) as [[_ E]|[_ E]]; rewrite E in *.
           ++ by left.
           ++ right. exists m. split; [by left|].
              rewrite Hc. by apply find_Some in F as [F _].
        -- by left.
      * right. exists m'. split; [by right|done].
Qed.

(** The cut index is the least offset at which a marker of the source
    starts, and the length of the text when there is none. *)
Lemma cut_index_earliest (md_text : str) :
  (forall i, marker_at md_text i -> cut_index md_text <= i)
  /\ (cut_index md_text < length md_text ->
      marker_at md_text (cut_index md_text))
  /\ cut_index md_text <= length md_text.
Proof.
  destruct (cut_fold md_text markers (length md_text)) as (Hle & Hall & Hat).
  fold (cut_index md_text) in Hle, Hall, Hat.
  split; [|split; [|done]].
  - intros i (m & Hm & Hst). by apply (Hall m).
  - intros Hlt. destruct Hat as [Hc|Hat]; [lia|done].
Qed.

Lemma marker_at_lt_length (md_text : str) i :
  marker_at md_text i -> i < length md_text.
Proof.
  intros (m & Hm & Hst).
  destruct (decide (i < length md_text)) as [|Hge]; [done|].
  rewrite drop_ge in Hst by lia.
  unfold markers in Hm.
  repeat (apply elem_of_cons in Hm as [->|Hm]); try done.
  by apply elem_of_nil in Hm.
Qed.

(** C4 (as stated, refuted): in the document "# A" a level-1 heading begins
    at offset 0 on the first line, yet the cut index is 3, the length of
    the text, and the whole document is the header region. *)
Lemma C4_first_line_not_scanned :
  let md_text := py "# A" in
  marker_begins md_text 0
  /\ cut_index md_text = 3
  /\ header_block_of md_text = md_text
  /\ ~ (forall i, marker_begins md_text i -> cut_index md_text <= i).
Proof.
  assert (marker_begins (py "# A") 0) as H0.
  { right. split; [done|]. exists (Chr.LF :: py "# ").
    split; [|reflexivity]. unfold markers. set_solver. }
  repeat split; try done.
  intros H. specialize (H 0 H0). vm_compute in H. lia.
Qed.

(** C4 (amended): the cut index that [parse_header_pairs] and
    [rewrite_header] compute is the earliest offset at which one of the
    three markers of the source starts, each being a line feed followed by
    the marker text (line feed "| ", line feed "## ", line feed "# "); where
    no such marker occurs the cut index is the length of the text and the
    header region is the entire document.  A table row or heading on the
    first line has no line feed in front and is not a cut point. *)
Theorem C4_cut_index_earliest_marker (md_text : str) :
  markers = [Chr.LF :: py "| "; Chr.LF :: py "## "; Chr.LF :: py "# "]
  /\ header_block_of md_text = take (cut_index md_text) md_text
  /\ (forall i, marker_at md_text i -> cut_index md_text <= i)
  /\ ((exists i, marker_at md_text i) -> marker_at md_text (cut_index md_text))
  /\ ((forall i, ~ marker_at md_text i) ->
      cut_index md_text = length md_text /\ header_block_of md_text = md_text).
Proof.
  destruct (cut_index_earliest md_text) as (Hmin & Hat & Hle).
  do 3 (split; [done|]). split.
  - intros [i Hi]. apply Hat.
    pose proof (Hmin i Hi). pose proof (marker_at_lt_length _ _ Hi). lia.
  - intros Hno.
    assert (cut_index md_text = length md_text) as Hc.
    { destruct (decide (cut_index md_text < length md_text)) as [Hlt|]; [|lia].
      destruct (Hno _ (Hat Hlt)). }
    split; [done|]. unfold header_block_of. rewrite Hc. apply firstn_all.
Qed.

(** ** The first table *)

Lemma splitlines_from_cons keepends cur c s' :
  Str.splitlines_from keepends cur (c :: s')
  = if Chr.linebreak c then
      match s' with
      | c' :: s'' =>
          if Ascii.eqb c Chr.CR && Ascii.eqb c' Chr.LF
          then (cur ++ if keepends then [c; c'] else [])
                 :: Str.splitlines_from keepends [] s''
          else (cur ++ if keepends then [c] else [])
                 :: Str.splitlines_from keepends [] s'
      | [] => [cur ++ if keepends then [c] else []]
      end
    else Str.splitlines_from keepends (cur ++ [c]) s'.
Proof. reflexivity. Qed.

Lemma splitlines_from_nil keepends cur :
  Str.splitlines_from keepends cur [] = if Str.truthy cur then [cur] else [].
Proof. reflexivity. Qed.

Lemma splitlines_from_concat (n : nat) :
  forall s cur, length s <= n ->
    concat (Str.splitlines_from true cur s) = cur ++ s.
Proof.
  induction n as [|n IH]; intros s cur Hn.
  - destruct s; [|simpl in Hn; lia]. rewrite splitlines_from_nil.
    destruct cur; simpl; by rewrite ?app_nil_r.
  - destruct s as [|c s].
    + rewrite splitlines_from_nil. destruct cur; simpl; by rewrite ?app_nil_r.
    + rewrite splitlines_from_cons. simpl in Hn. destruct (Chr.linebreak c).
      * destruct s as [|c' s].
        -- simpl. by rewrite app_nil_r.
        -- simpl in Hn. destruct (Ascii.eqb c Chr.CR && Ascii.eqb c' Chr.LF);
             rewrite concat_cons, IH by (simpl; lia); by rewrite <- app_assoc.
      * rewrite IH by lia. by rewrite <- app_assoc.
Qed.

(** Joining the lines kept with their ends gives the text back. *)
Lemma splitlines_concat (s : str) : concat (Str.splitlines s true) = s.
Proof. unfold Str.splitlines. by rewrite (splitlines_from_concat (length s)). Qed.

Lemma span_app {A} (f : A -> bool) (l : list A) :
  l = (span f l).1 ++ (span f l).2.
Proof.
  induction l as [|x l IH]; simpl; [done|].
  destruct (f x); [|done]. destruct (span f l) as [a b]. simpl in *. by f_equal.
Qed.

Lemma span_fst_all {A} (f : A -> bool) (l : list A) :
  Forall (fun x => f x = true) (span f l).1.
Proof.
  induction l as [|x l IH]; simpl; [constructor|].
  destruct (f x) eqn:E; [|constructor].
  destruct (span f l) as [a b]. simpl in *. by constructor.
Qed.

Lemma span_snd_head {A} (f : A -> bool) (l : list A) x :
  head (span f l).2 = Some x -> f x = false.
Proof.
  induction l as [|y l IH]; simpl; [done|].
  destruct (f y) eqn:E.
  - destruct (span f l) as [a b]. simpl in *. done.
  - simpl. by intros [= <-].
Qed.

Lemma first_table_is_first_table (lines : list str) :
  let '(pre, table, post) := first_table lines in
  is_first_table lines pre table post.
Proof.
  unfold first_table.
  pose proof (span_app (fun ln => negb (is_table_line ln)) lines) as H1.
  pose proof (span_fst_all (fun ln => negb (is_table_line ln)) lines) as H2.
  destruct (span (fun ln => negb (is_table_line ln)) lines) as [pre rest].
  pose proof (span_app is_table_line rest) as H3.
  pose proof (span_fst_all is_table_line rest) as H4.
  pose proof (span_snd_head is_table_line rest) as H5.
  destruct (span is_table_line rest) as [table post]. simpl in *.
  repeat split; [by subst| |done|done].
  eapply Forall_impl; [exact H2|]. intros ln. simpl. by destruct (is_table_line ln).
Qed.

(** The two loops that look for the table find the run that [span] cuts. *)
Lemma table_start_span (lines : list str) :
  forall idx,
    table_start lines idx
    = match (span (fun ln => negb (is_table_line ln)) lines).2 with
      | [] => None
      | _ :: _ =>
          Some (idx + length (span (fun ln => negb (is_table_line ln)) lines).1)
      end.
Proof.
  induction lines as [|ln lines IH]; intros idx; simpl; [done|].
  destruct (is_table_line ln); simpl.
  - f_equal. lia.
  - rewrite IH. destruct (span _ lines) as [a b]. simpl.
    destruct b; [done|]. f_equal. lia.
Qed.

Lemma table_end_span (rest : list str) :
  forall e, table_end rest e = e + length (span is_table_line rest).1.
Proof.
  induction rest as [|ln rest IH]; intros e; simpl; [lia|].
  destruct (is_table_line ln); simpl; [|lia].
  rewrite IH. destruct (span is_table_line rest) as [a b]. simpl. lia.
Qed.

Lemma row_kept_unfold (tokens : list str) (ln : str) :
  row_kept tokens ln
  = is_alignment_row ln
    || negb (existsb (fun tok => Str.contains (Str.lower ln) tok) tokens).
Proof. reflexivity. Qed.

Lemma filter_rows_acc (tokens : list str) (table_lines : list str) :
  forall acc,
    fold_left
      (fun filtered ln =>
         let ln_lower := Str.lower ln in
         if is_alignment_row ln then filtered ++ [ln]
         else if existsb (fun tok => Str.contains ln_lower tok) tokens
              then filtered
              else filtered ++ [ln])
      table_lines acc
    = acc ++ List.filter (row_kept tokens) table_lines.
Proof.
  induction table_lines as [|ln t IH]; intros acc.
  - simpl. by rewrite app_nil_r.
  - cbn [fold_left List.filter]. rewrite IH. cbv zeta.
    rewrite (row_kept_unfold tokens ln).
    destruct (is_alignment_row ln); cbn [orb negb]; [by rewrite <- app_assoc|].
    destruct (existsb _ tokens); cbn [negb]; [done|by rewrite <- app_assoc].
Qed.

Lemma filter_rows_filter (tokens : list str) (table_lines : list str) :
  filter_rows tokens table_lines = List.filter (row_kept tokens) table_lines.
Proof. unfold filter_rows. by rewrite filter_rows_acc. Qed.

(** What [_clean_first_table] returns, on both of its paths. *)
Lemma clean_first_table_filter (md_text : str) (header_keys : gmap string str) :
  let '(pre, table, post) := first_table (Str.splitlines md_text true) in
  _clean_first_table md_text header_keys
  = concat pre
    ++ concat (List.filter (row_kept (key_tokens header_keys)) table)
    ++ concat post.
Proof.
  unfold _clean_first_table, first_table. cbv zeta.
  pose proof (splitlines_concat md_text) as Hcat.
  set (lines := Str.splitlines md_text true) in *.
  rewrite table_start_span.
  pose proof (span_app (fun ln => negb (is_table_line ln)) lines) as H1.
  destruct (span (fun ln => negb (is_table_line ln)) lines) as [pre rest].
  simpl in H1. cbn [fst snd].
  pose proof (span_app is_table_line rest) as H3.
  destruct rest as [|r rest'].
  - simpl. rewrite app_nil_r in *. by rewrite <- H1.
  - set (rest := r :: rest') in *.
    assert (drop (0 + length pre) lines = rest) as Hdrop.
    { rewrite H1. simpl. by rewrite drop_app_length. }
    assert (take (0 + length pre) lines = pre) as Htake.
    { rewrite H1. simpl. by rewrite take_app_length. }
    rewrite Hdrop, Htake, table_end_span, filter_rows_filter.
    destruct (span is_table_line rest) as [table post]. simpl in H3. cbn [fst].
    replace (0 + length pre + length table - (0 + length pre))
      with (length table) by lia.
    assert (take (length table) rest = table) as ->.
    { rewrite H3. by rewrite take_app_length. }
    assert (drop (0 + length pre + length table) lines = post) as ->.
    { rewrite H1, H3. simpl. rewrite app_assoc.
      rewrite <- length_app. by rewrite drop_app_length. }
    case_bool_decide as Heq; [|done].
    rewrite Heq, <- Hcat, H1, H3. by rewrite !concat_app.
Qed.

Lemma filter_sublist {A} (f : A -> bool) (l : list A) :
  List.filter f l `sublist_of` l.
Proof.
  induction l as [|x l IH]; simpl; [constructor|].
  destruct (f x); by constructor.
Qed.

(** ** C7: what the two functions leave alone *)

(** C7: [rewrite_header] puts the header block in front of the text from
    the cut index on, which it copies as it is; [_clean_first_table] returns
    the lines before the first run of delimiter-prefixed lines and the lines
    after it unchanged, and of the run itself a sub-list of its rows, whole
    and in their order. *)
Theorem C7_body_and_frame (md_text : str) (header_map header_keys : gmap string str) :
  rewrite_header md_text header_map
  = clean_header header_map ++ drop (cut_index md_text) md_text
  /\ drop (length (clean_header header_map)) (rewrite_header md_text header_map)
     = drop (cut_index md_text) md_text
  /\ exists pre table post kept,
       is_first_table (Str.splitlines md_text true) pre table post
       /\ md_text = concat pre ++ concat table ++ concat post
       /\ kept `sublist_of` table
       /\ _clean_first_table md_text header_keys
          = concat pre ++ concat kept ++ concat post.
Proof.
  split; [reflexivity|]. split.
  { unfold rewrite_header. cbv zeta. by rewrite drop_app_length. }
  pose proof (clean_first_table_filter md_text header_keys) as Hout.
  pose proof (first_table_is_first_table (Str.splitlines md_text true)) as Hft.
  destruct (first_table (Str.splitlines md_text true)) as [[pre table] post].
  exists pre, table, post,
    (List.filter (row_kept (key_tokens header_keys)) table).
  split; [done|]. split; [|split; [apply filter_sublist|done]].
  destruct Hft as (Hlines & _).
  rewrite <- (splitlines_concat md_text) at 1.
  by rewrite Hlines, !concat_app.
Qed.

(** ** C8: alignment rows *)

Lemma forallb_lstrip (p : ascii -> bool) (s : str) :
  forallb p s = true -> forallb p (Str.lstrip s) = true.
Proof.
  induction s as [|c s IH]; simpl; [done|].
  intros H. destruct (Chr.isspace c); [|done].
  apply andb_prop in H as [_ H]. by apply IH.
Qed.

Lemma forallb_rev (p : ascii -> bool) (s : str) :
  forallb p (rev s) = forallb p s.
Proof.
  induction s as [|c s IH]; simpl; [done|].
  rewrite forallb_app, IH. simpl. rewrite andb_true_r. apply andb_comm.
Qed.

Lemma forallb_strip (p : ascii -> bool) (s : str) :
  forallb p s = true -> forallb p (Str.strip s) = true.
Proof.
  intros H. unfold Str.strip, Str.rstrip.
  rewrite forallb_rev. apply forallb_lstrip. rewrite forallb_rev.
  by apply forallb_lstrip.
Qed.

Lemma lstrip_app_solid (a : str) (c : ascii) (b : str) :
  Chr.isspace c = false ->
  Str.lstrip (a ++ c :: b) = Str.lstrip a ++ c :: b.
Proof.
  intros Hc. induction a as [|d a IH]; simpl.
  - by rewrite Hc.
  - destruct (Chr.isspace d); [done|done].
Qed.

Lemma rstrip_cons_solid (c : ascii) (s : str) :
  Chr.isspace c = false -> Str.rstrip (c :: s) = c :: Str.rstrip s.
Proof.
  intros Hc. unfold Str.rstrip. simpl.
  rewrite lstrip_app_solid by done. by rewrite rev_app_distr.
Qed.

Lemma startswith_cons (b : ascii) (s : str) (a : ascii) (p : str) :
  Str.startswith (b :: s) (a :: p) = Ascii.eqb a b && Str.startswith s p.
Proof. reflexivity. Qed.

Lemma startswith_nil (s : str) : Str.startswith s [] = true.
Proof. by destruct s. Qed.

(** A delimiter-prefixed line still starts with the delimiter when it is
    stripped on both sides. *)
Lemma table_line_strip (ln : str) :
  is_table_line ln = true -> Str.startswith (Str.strip ln) (py "|") = true.
Proof.
  unfold is_table_line, Str.strip.
  destruct (Str.lstrip ln) as [|c t]; [done|].
  change (py "|") with ["|"%char]. rewrite startswith_cons.
  destruct (Ascii.eqb_spec "|" c) as [<-|]; [|done]. intros _.
  rewrite rstrip_cons_solid by done.
  by rewrite startswith_cons, startswith_nil.
Qed.

Lemma alignment_text_row (ln : str) :
  is_table_line ln = true -> alignment_text ln = true ->
  is_alignment_row ln = true.
Proof.
  intros Ht Ha. unfold is_alignment_row. cbv zeta.
  rewrite table_line_strip by done. simpl. by apply forallb_strip.
Qed.

(** C8: whatever the text and the vocabulary, the filter returns the lines
    around the first table and, of the table, the rows that [row_kept]
    accepts; it accepts every row of the table whose stripped text, with the
    delimiters removed, consists of '-', ':' and space only, so such a row
    is never removed. *)
Theorem C8_alignment_rows_retained (md_text : str) (header_keys : gmap string str) :
  exists pre table post,
    is_first_table (Str.splitlines md_text true) pre table post
    /\ _clean_first_table md_text header_keys
       = concat pre
         ++ concat (List.filter (row_kept (key_tokens header_keys)) table)
         ++ concat post
    /\ forall ln, ln ∈ table -> alignment_text ln = true ->
         row_kept (key_tokens header_keys) ln = true
         /\ ln ∈ List.filter (row_kept (key_tokens header_keys)) table.
Proof.
  pose proof (clean_first_table_filter md_text header_keys) as Hout.
  pose proof (first_table_is_first_table (Str.splitlines md_text true)) as Hft.
  destruct (first_table (Str.splitlines md_text true)) as [[pre table] post].
  exists pre, table, post. split; [done|]. split; [done|].
  intros ln Hln Ha.
  assert (row_kept (key_tokens header_keys) ln = true) as Hk.
  { destruct Hft as (_ & _ & Htable & _).
    rewrite Forall_forall in Htable.
    unfold row_kept. by rewrite alignment_text_row by auto. }
  split; [done|]. apply list_elem_of_In, filter_In.
  split; [by apply list_elem_of_In|done].
Qed.

(** ** C9: the vocabulary is matched as a substring *)



(** ** C5: the last 12-digit token *)

(** A class repeated exactly [n] times reads [n] characters of the class
    or fails; [m] iterations are still to be done. *)
Lemma rep_cls_exact {A} (p : ascii -> bool) (n : nat) (k : @cont A) :
  forall m fuel cnt prev s,
    length s <= fuel -> cnt + m = n ->
    rep_loop (run (Cls p)) n (Some n) k fuel cnt prev s
    = if (m <=? length s) && forallb p (take m s)
      then k (prev_after prev (take m s)) (drop m s) else None.
Proof.
  induction m as [|m IH]; intros fuel cnt prev s Hfuel Hcnt.
  - assert (cnt = n) as -> by lia.
    assert ((n <=? n) = true) as Hnn by (apply Nat.leb_le; lia).
    assert ((n <? n) = false) as Hlt by (apply Nat.ltb_ge; lia).
    destruct fuel; simpl; rewrite Hnn, ?Hlt; by rewrite ?drop_0.
  - assert ((n <=? cnt) = false) as Hle by (apply Nat.leb_gt; lia).
    assert ((cnt <? n) = true) as Hlt by (apply Nat.ltb_lt; lia).
    destruct s as [|c s].
    + destruct fuel; simpl; rewrite Hle, ?Hlt; done.
    + destruct fuel as [|fuel]; [simpl in Hfuel; lia|].
      rewrite rep_loop_S. cbv zeta. cbn [below]. rewrite Hle, Hlt, run_cls.
      cbn [length take forallb drop prev_after].
      destruct (p c); cbn [andb].
      * assert ((length s <? S (length s)) = true) as ->
          by (apply Nat.ltb_lt; lia).
        rewrite (IH fuel (S cnt) (Some c) s) by (simpl in Hfuel; lia).
        change (S m <=? S (length s)) with (m <=? length s).
        by destruct ((m <=? length s) && forallb p (take m s));
          [destruct (k _ _)|].
      * by rewrite andb_false_r.
Qed.

(** [uan_re] matches at a position exactly when [uan_here] holds there, and
    then over twelve characters. *)
Lemma match_here_uan (prev : option ascii) (s : str) :
  match_here uan_re prev s = if uan_here prev s then Some 12 else None.
Proof.
  unfold match_here, uan_re, uan_here, Times, digit.
  rewrite run_cat, run_bnd. destruct (boundary prev (head s)); [|done].
  rewrite run_cat, run_rep, (rep_cls_exact _ 12 _ 12) by lia. cbn [andb].
  destruct (12 <=? length s) eqn:Hlen; [|done]. cbn [andb].
  destruct (forallb Chr.decimal (take 12 s)); [|done]. cbn [andb].
  rewrite run_bnd. destruct (boundary _ _); [|done].
  apply Nat.leb_le in Hlen. rewrite length_drop. f_equal. lia.
Qed.

Lemma decimal_word (c : ascii) : Chr.decimal c = true -> Chr.word c = true.
Proof. destruct c as [[] [] [] [] [] [] [] []]; by vm_compute. Qed.

Lemma head_drop_lookup {A} (l : list A) (i : nat) : head (drop i l) = l !! i.
Proof.
  revert i. induction l as [|x l IH]; intros [|i]; simpl; auto.
Qed.

Lemma prev_after_last (prev : option ascii) (t : str) :
  prev_after prev t = match last t with Some c => Some c | None => prev end.
Proof.
  revert prev. induction t as [|c t IH]; intros prev; [done|].
  cbn [prev_after]. rewrite IH. destruct t as [|a t]; [done|].
  change (last (c :: a :: t)) with (last (a :: t)).
  destruct (last (a :: t)) eqn:E; [done|]. by apply last_None in E.
Qed.

Lemma slice_12 (s : str) (i : nat) :
  Str.slice s i (i + 12) = take 12 (drop i s).
Proof. unfold Str.slice. f_equal. lia. Qed.

(** The characters of a token are digits of the text. *)
Lemma token_digit (s : str) (i : nat) :
  length (take 12 (drop i s)) = 12 ->
  Forall (fun c => Chr.decimal c = true) (take 12 (drop i s)) ->
  forall t, t < 12 -> exists c, s !! (i + t) = Some c /\ Chr.decimal c = true.
Proof.
  intros Hlen Hall t Ht.
  destruct (lookup_lt_is_Some_2 (take 12 (drop i s)) t) as [c Hc]; [lia|].
  exists c. split.
  - by rewrite lookup_take_lt, lookup_drop in Hc by lia.
  - rewrite Forall_forall in Hall. apply Hall.
    by apply list_elem_of_lookup_2 in Hc.
Qed.

(** [uan_here], read at the position [i] of the text, says that a token
    stands at [i]. *)
Lemma uan_here_token (s : str) (i : nat) :
  uan_here (char_before s i) (drop i s) = true <-> uan_token_at s i.
Proof.
  unfold uan_here, uan_token_at, word_boundary_at.
  rewrite slice_12, head_drop_lookup, drop_drop, head_drop_lookup.
  rewrite !andb_true_iff, Nat.leb_le, length_take, length_drop.
  split.
  - intros (((Hb & Hlen) & Hall) & Ha).
    assert (length (take 12 (drop i s)) = 12) as Hl
      by (rewrite length_take, length_drop; lia).
    assert (Forall (fun c => Chr.decimal c = true) (take 12 (drop i s))) as HF.
    { apply Forall_forall. intros c Hc.
      rewrite forallb_forall in Hall. apply Hall. by apply list_elem_of_In. }
    repeat split; [lia|done|done|].
    rewrite prev_after_last, last_lookup, Hl in Ha. simpl in Ha.
    rewrite lookup_take_lt, lookup_drop in Ha by lia.
    destruct (token_digit s i Hl HF 11) as (c & Hc & _); [lia|].
    rewrite Hc in Ha. replace (i + 12) with (S (i + 11)) by lia.
    simpl. rewrite Hc. by replace (S (i + 11)) with (i + 12) by lia.
  - intros (Hlen & Hall & Hb & Ha).
    assert (length (take 12 (drop i s)) = 12) as Hl
      by (by rewrite length_take, length_drop).
    repeat split; [done|lia|by apply forallb_of_Forall|].
    rewrite prev_after_last, last_lookup, Hl. simpl.
    rewrite lookup_take_lt, lookup_drop by lia.
    destruct (token_digit s i Hl Hall 11) as (c & Hc & _); [lia|].
    rewrite Hc. replace (i + 12) with (S (i + 11)) in Ha by lia.
    simpl in Ha. rewrite Hc in Ha.
    by replace (S (i + 11)) with (i + 12) in Ha by lia.
Qed.

(** No token starts inside another one: there is no word boundary between
    two digits. *)
Lemma uan_token_no_overlap (s : str) (i j : nat) :
  uan_token_at s i -> i < j < i + 12 -> ~ uan_token_at s j.
Proof.
  intros (Hlen & Hall & _ & _) Hj (_ & _ & Hb & _).
  rewrite slice_12 in Hlen, Hall.
  destruct (token_digit s i Hlen Hall (j - i)) as (c & Hc & Hd); [lia|].
  destruct (token_digit s i Hlen Hall (j - 1 - i)) as (c' & Hc' & Hd'); [lia|].
  replace (i + (j - i)) with j in Hc by lia.
  replace (i + (j - 1 - i)) with (j - 1) in Hc' by lia.
  unfold word_boundary_at, boundary in Hb.
  destruct j as [|j]; [lia|]. simpl in Hb, Hc'.
  rewrite Nat.sub_0_r in Hc'. rewrite Hc, Hc' in Hb. simpl in Hb.
  by rewrite !decimal_word in Hb.
Qed.

Lemma finditer_from_nil r skip prev pos :
  finditer_from r skip prev [] pos
  = match skip with
    | S _ => []
    | 0 => match match_here r prev [] with
           | Some n => [mkMatch pos (pos + n)]
           | None => []
           end
    end.
Proof. destruct skip; [|done]. simpl. by destruct (match_here r prev []). Qed.

Lemma finditer_from_cons r skip prev c s pos :
  finditer_from r skip prev (c :: s) pos
  = match skip with
    | S skip' => finditer_from r skip' (Some c) s (S pos)
    | 0 => match match_here r prev (c :: s) with
           | Some n => mkMatch pos (pos + n)
                         :: finditer_from r (pred n) (Some c) s (S pos)
           | None => finditer_from r 0 (Some c) s (S pos)
           end
    end.
Proof. by destruct skip. Qed.

(** The scan of [uan_re] over a text lists the offsets of its tokens from
    left to right; [skip] characters of the last match are still to be
    passed, and no token starts among them. *)
Lemma finditer_uan (hb : str) (s : str) :
  forall skip prev pos,
    s = drop pos hb -> prev = char_before hb pos -> pos <= length hb ->
    (forall j, pos <= j < pos + skip -> uan_token_atb hb j = false) ->
    finditer_from uan_re skip prev s pos
    = map (fun j => mkMatch j (j + 12))
        (List.filter (uan_token_atb hb) (seq pos (S (length hb) - pos))).
Proof.
  induction s as [|c s IH]; intros skip prev pos Hs Hprev Hpos Hskip.
  - assert (pos = length hb) as ->.
    { apply (f_equal length) in Hs. rewrite length_drop in Hs. simpl in Hs. lia. }
    replace (S (length hb) - length hb) with 1 by lia.
    assert (uan_token_atb hb (length hb) = false) as Hf.
    { unfold uan_token_atb. rewrite <- Hs. unfold uan_here. simpl.
      by rewrite andb_false_r. }
    rewrite finditer_from_nil, match_here_uan. cbn [seq List.filter].
    rewrite Hf. unfold uan_token_atb in Hf. rewrite <- Hs, <- Hprev in Hf.
    rewrite Hf. by destruct skip.
  - assert (pos < length hb) as Hlt.
    { apply (f_equal length) in Hs. rewrite length_drop in Hs. simpl in Hs. lia. }
    assert (hb !! pos = Some c) as Hc.
    { rewrite <- head_drop_lookup, <- Hs. done. }
    assert (s = drop (S pos) hb) as Hs'.
    { replace (S pos) with (pos + 1) by lia.
      by rewrite <- (drop_drop hb 1 pos), <- Hs. }
    replace (S (length hb) - pos) with (S (S (length hb) - S pos)) by lia.
    cbn [seq List.filter].
    rewrite finditer_from_cons. destruct skip as [|skip].
    + rewrite match_here_uan.
      assert (uan_here prev (c :: s) = uan_token_atb hb pos) as ->.
      { unfold uan_token_atb. by rewrite <- Hs, <- Hprev. }
      destruct (uan_token_atb hb pos) eqn:Hf.
      * cbn [map pred]. f_equal.
        apply IH; [done|done|lia|].
        intros j Hj. apply not_true_is_false. intros Hj'.
        apply uan_here_token in Hj'. apply uan_here_token in Hf.
        apply (uan_token_no_overlap hb pos j Hf); [lia|done].
      * apply IH; [done|done|lia|]. intros j Hj. lia.
    + rewrite (Hskip pos) by lia.
      apply IH; [done|done|lia|]. intros j Hj. apply Hskip. lia.
Qed.

Lemma last_filter_seq (f : nat -> bool) (a n i : nat) :
  a <= i < a + n -> f i = true ->
  (forall j, a <= j < a + n -> f j = true -> j <= i) ->
  last (List.filter f (seq a n)) = Some i.
Proof.
  induction n as [|n IH]; intros Hi Hf Hmax; [lia|].
  rewrite seq_S, List.filter_app. cbn [List.filter].
  destruct (decide (i = a + n)) as [->|Hne].
  - rewrite Hf. by rewrite last_snoc.
  - destruct (f (a + n)) eqn:E.
    + assert (a + n <= i) by (apply Hmax; [lia|done]). lia.
    + rewrite app_nil_r. apply IH; [lia|done|].
      intros j Hj. apply Hmax. lia.
Qed.

Lemma last_map {A B} (g : A -> B) (l : list A) :
  last (map g l) = g <$> last l.
Proof.
  induction l as [|x l IH]; [done|]. destruct l as [|y l]; [done|].
  change (last (map g (x :: y :: l))) with (last (map g (y :: l))).
  by rewrite IH.
Qed.

Lemma fold_left_keep_last {A B} (g : A -> B) (l : list A) (acc : option B) :
  fold_left (fun _ m => Some (g m)) l acc
  = match last l with Some m => Some (g m) | None => acc end.
Proof.
  revert acc. induction l as [|x l IH]; intros acc; [done|].
  cbn [fold_left]. rewrite IH. destruct l as [|y l]; [done|].
  change (last (x :: y :: l)) with (last (y :: l)).
  destruct (last (y :: l)) eqn:E; [done|]. by apply last_None in E.
Qed.

(** C5: when the header region holds a 12-digit token (twelve decimal
    digits with a word boundary on both sides), the mapping has under UAN
    the token at the greatest offset, the last one of a scan from left to
    right; the tokens in front of it leave no trace. *)
Theorem C5_uan_is_last_token (md_text : str) (pdf_path : Path) (i : nat) :
  uan_token_at (header_block_of md_text) i ->
  (forall j, uan_token_at (header_block_of md_text) j -> j <= i) ->
  parse_header_pairs md_text pdf_path !! "UAN"%string
  = Some (Str.slice (header_block_of md_text) i (i + 12)).
Proof.
  set (hb := header_block_of md_text). intros Htok Hmax.
  rewrite parse_header_pairs_uan. fold hb.
  unfold last_uan, finditer.
  rewrite (finditer_uan hb hb 0 None 0); [|done|done|lia|intros j Hj; lia].
  rewrite fold_left_keep_last, Nat.sub_0_r.
  assert (i + 12 <= length hb) as Hlen.
  { destruct Htok as (Hl & _). rewrite slice_12, length_take, length_drop in Hl.
    lia. }
  assert (last (map (fun j => mkMatch j (j + 12))
                 (List.filter (uan_token_atb hb) (seq 0 (S (length hb)))))
          = Some (mkMatch i (i + 12))) as ->.
  { rewrite last_map.
    rewrite (last_filter_seq _ 0 (S (length hb)) i); [done|lia| |].
    - by apply uan_here_token.
    - intros j _ Hj. apply Hmax. by apply uan_here_token. }
  unfold group. simpl.
  destruct Htok as (Hl & _).
  destruct (Str.slice hb i (i + 12)); [done|done].
Qed.

Lemma C5_uan_is_last_token_witness :
  parse_header_pairs
    (py "UAN 111122223333 old 999988887777 acct 1234567890123")
    example_path !! "UAN"%string
  = Some (py "999988887777").
Proof.
  rewrite (C5_uan_is_last_token _ example_path 21); [by vm_compute| |].
  - unfold uan_token_at. vm_compute. repeat split; repeat constructor.
  - intros j Hj. apply uan_here_token in Hj.
    destruct (decide (j <= 21)) as [|Hgt]; [done|exfalso].
    assert (j < 53 \/ 53 <= j) as [Hlt|Hge] by lia.
    + do 53 (destruct j as [|j]; [try lia; by vm_compute in Hj|]). lia.
    + revert Hj. unfold uan_here.
      rewrite drop_ge by (vm_compute; lia). simpl. by rewrite andb_false_r.
Defined.

(** ** C2: a second application *)

Lemma lf_ok_skip (l tail : str) :
  Chr.LF ∉ l -> lf_ok (l ++ tail) = lf_ok tail.
Proof.
  induction l as [|c l IH]; intros Hl; [done|].
  apply not_elem_of_cons in Hl as [Hc Hl].
  cbn [app lf_ok]. rewrite IH by done.
  destruct (Ascii.eqb_spec c Chr.LF) as [->|_]; [done|done].
Qed.

Lemma lf_ok_lookup (s : str) :
  forall i x, lf_ok s = true -> s !! i = Some Chr.LF -> s !! (S i) = Some x ->
    x = "*"%char \/ x = Chr.LF.
Proof.
  induction s as [|c s IH]; intros i x Hok Hi Hx; [done|].
  cbn [lf_ok] in Hok. apply andb_prop in Hok as [Hc Hok].
  destruct i as [|i].
  - simpl in Hi, Hx. injection Hi as ->. rewrite Ascii.eqb_refl in Hc.
    destruct s as [|y s]; [done|]. simpl in Hx. injection Hx as ->.
    apply orb_prop in Hc as [Hc|Hc]; apply Ascii.eqb_eq in Hc; auto.
  - simpl in Hi, Hx. by apply (IH i x).
Qed.

Lemma marker_shape (m : str) :
  m ∈ markers ->
  exists x t, m = Chr.LF :: x :: t /\ x <> "*"%char /\ x <> Chr.LF.
Proof.
  unfold markers. intros Hm.
  repeat (apply elem_of_cons in Hm as [->|Hm]);
    [eexists _, _; split; [reflexivity|split; discriminate] ..|].
  by apply elem_of_nil in Hm.
Qed.

Lemma startswith_cons_inv (s : str) (a : ascii) (p : str) :
  Str.startswith s (a :: p) = true ->
  exists s', s = a :: s' /\ Str.startswith s' p = true.
Proof.
  destruct s as [|b s]; [done|]. rewrite startswith_cons.
  intros H. apply andb_prop in H as [Hab H].
  apply Ascii.eqb_eq in Hab as ->. by exists s.
Qed.

(** No marker starts inside [a] when the line feeds of [a], the one at its
    end included, are followed by '*' or a line feed. *)
Lemma no_marker_inside (a b : str) (i : nat) :
  lf_ok (a ++ take 1 b) = true -> i < length a -> ~ marker_at (a ++ b) i.
Proof.
  intros Hok Hi (m & Hm & Hst).
  destruct (marker_shape m Hm) as (x & t & -> & Hx1 & Hx2).
  apply startswith_cons_inv in Hst as (s1 & Hs1 & Hst).
  apply startswith_cons_inv in Hst as (s2 & -> & _).
  assert ((a ++ b) !! i = Some Chr.LF) as H0.
  { rewrite <- head_drop_lookup, Hs1. done. }
  assert ((a ++ b) !! (S i) = Some x) as H1.
  { replace (S i) with (i + 1) by lia.
    rewrite <- lookup_drop, Hs1. done. }
  assert ((a ++ take 1 b) !! i = Some Chr.LF) as H0'.
  { rewrite lookup_app_l in * by done. done. }
  assert ((a ++ take 1 b) !! (S i) = Some x) as H1'.
  { destruct (decide (S i < length a)).
    - rewrite lookup_app_l in * by done. done.
    - rewrite lookup_app_r in * by lia.
      replace (S i - length a) with 0 in * by lia.
      destruct b; done. }
  destruct (lf_ok_lookup _ _ _ Hok H0' H1'); done.
Qed.

Lemma field_line_no_lf (key : string) (v : str) :
  key ∈ order -> Chr.LF ∉ v -> Chr.LF ∉ field_line key v.
Proof.
  intros Hkey Hv. unfold field_line.
  rewrite !not_elem_of_app. split; [|split; [|split; [|done]]];
    try (apply (bool_decide_unpack _); by vm_compute).
  unfold order in Hkey.
  repeat (apply elem_of_cons in Hkey as [->|Hkey]);
    try (apply (bool_decide_unpack _); by vm_compute).
  by apply elem_of_nil in Hkey.
Qed.

Lemma clean_lines_shape (m : gmap string str) :
  lf_free m ->
  Forall (fun l => (Chr.LF ∉ l) /\ (exists t, l = "*"%char :: t))
    (clean_lines m).
Proof.
  intros Hm. rewrite clean_lines_flat_map. apply Forall_forall. intros l.
  rewrite list_elem_of_In, in_flat_map. intros (key & Hkey & Hl).
  apply list_elem_of_In in Hkey. apply list_elem_of_In in Hl.
  destruct (m !! key) as [v|] eqn:E; [|by apply elem_of_nil in Hl].
  destruct (Str.truthy v); [|by apply elem_of_nil in Hl].
  apply list_elem_of_singleton in Hl as ->. split.
  - apply field_line_no_lf; [done|]. by apply (Hm key).
  - by eexists.
Qed.

Lemma join_lines_lf_ok (lines : list str) (t : str) :
  Forall (fun l => (Chr.LF ∉ l) /\ (exists t, l = "*"%char :: t)) lines ->
  lf_ok ([Chr.LF; Chr.LF] ++ t) = true ->
  lf_ok (Str.join [Chr.LF] lines ++ [Chr.LF; Chr.LF] ++ t) = true.
Proof.
  intros Hall Ht. induction Hall as [|l ls [Hl _] Hls IH]; [done|].
  destruct ls as [|l2 ls].
  - cbn [Str.join]. by rewrite lf_ok_skip.
  - change (Str.join [Chr.LF] (l :: l2 :: ls))
      with (l ++ [Chr.LF] ++ Str.join [Chr.LF] (l2 :: ls)).
    rewrite <- !app_assoc, lf_ok_skip by done.
    apply Forall_inv in Hls as Hl2. destruct Hl2 as [_ [t2 ->]].
    assert (exists Y, Str.join [Chr.LF] (("*"%char :: t2) :: ls)
                        ++ [Chr.LF; Chr.LF] ++ t = "*"%char :: Y) as [Y HY].
    { destruct ls; simpl; eexists; reflexivity. }
    rewrite HY in IH |- *. cbn [app lf_ok] in IH |- *.
    by rewrite Ascii.eqb_refl.
Qed.

(** With the mapping held fixed, the header is spliced at the same
    place the second time: the emitted block ends where the body begins. *)
Lemma cut_index_rewritten (md_text : str) (m : gmap string str) :
  lf_free m ->
  cut_index (rewrite_header md_text m) = length (clean_header m).
Proof.
  intros Hm. unfold rewrite_header. cbv zeta.
  set (H := clean_header m). set (rest := drop (cut_index md_text) md_text).
  destruct (cut_index_earliest md_text) as (_ & Hat & Hle).
  destruct (cut_index_earliest (H ++ rest)) as (Hmin' & Hat' & Hle').
  assert (rest = [] \/ marker_at (H ++ rest) (length H)) as Hrest.
  { destruct (decide (cut_index md_text < length md_text)) as [Hlt|Hge].
    - right. destruct (Hat Hlt) as (mk & Hmk & Hst). exists mk.
      split; [done|]. by rewrite drop_app_length.
    - left. unfold rest. apply drop_ge. lia. }
  assert (lf_ok (H ++ take 1 rest) = true) as Hok.
  { unfold H, clean_header. rewrite <- app_assoc.
    apply join_lines_lf_ok; [by apply clean_lines_shape|].
    destruct Hrest as [->|(mk & Hmk & Hst)]; [done|].
    rewrite drop_app_length in Hst.
    destruct (marker_shape mk Hmk) as (x & t & -> & _).
    apply startswith_cons_inv in Hst as (s1 & -> & _). done. }
  destruct (decide (cut_index (H ++ rest) < length H)) as [Hlt|Hge].
  - exfalso. apply (no_marker_inside H rest (cut_index (H ++ rest)) Hok Hlt).
    apply Hat'. rewrite length_app. lia.
  - destruct Hrest as [->|Hmk].
    + rewrite app_nil_r in *. lia.
    + pose proof (Hmin' _ Hmk). lia.
Qed.

Lemma rewrite_header_idempotent (md_text : str) (m : gmap string str) :
  lf_free m ->
  rewrite_header (rewrite_header md_text m) m = rewrite_header md_text m.
Proof.
  intros Hm. unfold rewrite_header at 1. cbv zeta.
  rewrite cut_index_rewritten by done.
  unfold rewrite_header. cbv zeta. by rewrite drop_app_length.
Qed.

(** *** What a match reads *)

Lemma rep_loop_reads {A} (Q : ascii -> Prop)
    (body : option ascii -> str -> @cont A -> option A) lo hi (k : @cont A) :
  (forall prev s k' a, body prev s k' = Some a ->
     exists n prev', Forall Q (take n s) /\ k' prev' (drop n s) = Some a) ->
  forall fuel cnt prev s a,
    rep_loop body lo hi k fuel cnt prev s = Some a ->
    exists n prev', Forall Q (take n s) /\ k prev' (drop n s) = Some a.
Proof.
  intros Hbody.
  assert (forall cnt prev s a,
            (if lo <=? cnt then k prev s else None) = Some a ->
            exists n prev', Forall Q (take n s) /\ k prev' (drop n s) = Some a)
    as Hstop.
  { intros cnt prev s a H. destruct (lo <=? cnt); [|done].
    exists 0, prev. split; [constructor|done]. }
  induction fuel as [|fuel IH]; intros cnt prev s a H.
  - exact (Hstop cnt prev s a H).
  - rewrite rep_loop_S in H. cbv zeta in H.
    destruct (below cnt hi); [|exact (Hstop cnt prev s a H)].
    destruct (body prev s _) as [a'|] eqn:E; [|exact (Hstop cnt prev s a H)].
    injection H as ->.
    apply Hbody in E as (n1 & p1 & Hn1 & E).
    destruct (length (drop n1 s) <? length s); [|done].
    apply IH in E as (n2 & p2 & Hn2 & E).
    exists (n1 + n2), p2. rewrite <- take_take_drop, <- drop_drop.
    split; [|done]. by apply Forall_app.
Qed.

(** A run that succeeds has read some [n] characters, all admitted by the
    classes of the pattern, and handed the rest to its continuation. *)
Lemma run_reads {A} (Q : ascii -> Prop) (r : regex) :
  reads_only Q r ->
  forall prev s (k : @cont A) a,
    run r prev s k = Some a ->
    exists n prev', Forall Q (take n s) /\ k prev' (drop n s) = Some a.
Proof.
  induction r as [p| |r1 IH1 r2 IH2|r IH lo hi]; cbn [reads_only]; intros Hr.
  - intros prev [|c s] k a; [done|]. rewrite run_cls.
    destruct (p c) eqn:Hc; [|done]. intros H.
    exists 1, (Some c). split; [|done]. simpl. constructor; [auto|constructor].
  - intros prev s k a. rewrite run_bnd.
    destruct (boundary _ _); [|done]. intros H.
    exists 0, prev. split; [constructor|done].
  - destruct Hr as [H1 H2].
    intros prev s k a. rewrite run_cat. intros H.
    apply (IH1 H1) in H as (n1 & p1 & Hn1 & H).
    apply (IH2 H2) in H as (n2 & p2 & Hn2 & H).
    exists (n1 + n2), p2. rewrite <- take_take_drop, <- drop_drop.
    split; [|done]. by apply Forall_app.
  - intros prev s k a. rewrite run_rep.
    apply rep_loop_reads. intros prev' s' k' a'. by apply IH.
Qed.

Lemma lf_excluded_reads (r : regex) :
  lf_excluded r = true -> reads_only (fun c => c <> Chr.LF) r.
Proof.
  induction r as [p| |r1 IH1 r2 IH2|r IH lo hi]; cbn [lf_excluded reads_only].
  - intros Hp c Hc ->. by rewrite Hc in Hp.
  - done.
  - intros H. apply andb_prop in H as [H1 H2]. auto.
  - done.
Qed.

Lemma reads_anything (r : regex) : reads_only (fun _ => True) r.
Proof. induction r; cbn [reads_only]; auto. Qed.

Lemma Forall_not_lf (t : str) : Forall (fun c => c <> Chr.LF) t -> Chr.LF ∉ t.
Proof.
  intros H Hin. rewrite Forall_forall in H. by apply (H _ Hin).
Qed.

Lemma run_no_lf {A} (r : regex) :
  lf_excluded r = true ->
  forall prev s (k : @cont A) a,
    run r prev s k = Some a ->
    exists n prev', (Chr.LF ∉ take n s) /\ k prev' (drop n s) = Some a.
Proof.
  intros Hr prev s k a H.
  apply (run_reads _ r (lf_excluded_reads r Hr)) in H as (n & p & Hn & H).
  exists n, p. split; [by apply Forall_not_lf|done].
Qed.

Lemma match_here_no_lf (r : regex) prev s n :
  lf_excluded r = true -> match_here r prev s = Some n ->
  (Chr.LF ∉ take n s) /\ n <= length s.
Proof.
  intros Hr H. unfold match_here in H.
  apply (run_no_lf r Hr) in H as (n0 & p0 & Hn0 & H).
  injection H as <-. rewrite length_drop.
  split; [|lia].
  destruct (decide (n0 <= length s)).
  - by replace (length s - (length s - n0)) with n0 by lia.
  - replace (length s - (length s - n0)) with (length s) by lia.
    rewrite take_ge in Hn0 by lia. by rewrite take_ge by lia.
Qed.

(** [k] is reached only where the input is used up. *)
Lemma fullmatch_no_lf (r : regex) s :
  lf_excluded r = true -> fullmatch r s = true -> Chr.LF ∉ s.
Proof.
  intros Hr H. unfold fullmatch in H. apply bool_decide_eq_true in H as [u H].
  apply (run_no_lf r Hr) in H as (n & p & Hn & H).
  destruct (drop n s) eqn:E; [|done].
  apply (f_equal length) in E. rewrite length_drop in E. simpl in E.
  by rewrite take_ge in Hn by lia.
Qed.

Lemma search_from_no_lf (r : regex) :
  lf_excluded r = true ->
  forall s prev pos m,
    search_from r prev s pos = Some m ->
    pos <= m_start m
    /\ (Chr.LF ∉ take (m_end m - m_start m) (drop (m_start m - pos) s)).
Proof.
  intros Hr. induction s as [|c s IH]; intros prev pos m; cbn [search_from].
  - destruct (match_here r prev []) as [n|] eqn:E; [|done].
    intros [= <-]. cbn [m_start m_end]. split; [lia|].
    rewrite drop_nil, take_nil. apply not_elem_of_nil.
  - destruct (match_here r prev (c :: s)) as [n|] eqn:E.
    + intros [= <-]. cbn [m_start m_end]. split; [lia|].
      replace (pos + n - pos) with n by lia. rewrite Nat.sub_diag.
      by apply (match_here_no_lf r prev).
    + intros H. apply IH in H as [Hpos H]. split; [lia|].
      replace (m_start m - pos) with (S (m_start m - S pos)) by lia. done.
Qed.

Lemma search_group_no_lf (r : regex) s m :
  lf_excluded r = true -> search r s = Some m -> Chr.LF ∉ group s m.
Proof.
  intros Hr H. apply (search_from_no_lf r Hr) in H as [_ H].
  unfold group, Str.slice. by rewrite Nat.sub_0_r in H.
Qed.

Lemma finditer_from_no_lf (r : regex) :
  lf_excluded r = true ->
  forall s skip prev pos,
    Forall (fun m => pos <= m_start m
                     /\ (Chr.LF ∉ take (m_end m - m_start m)
                                      (drop (m_start m - pos) s)))
      (finditer_from r skip prev s pos).
Proof.
  intros Hr. induction s as [|c s IH]; intros skip prev pos.
  - rewrite finditer_from_nil. destruct skip; [|constructor].
    destruct (match_here r prev []); constructor; [|constructor].
    cbn [m_start m_end]. split; [lia|].
    rewrite drop_nil, take_nil. apply not_elem_of_nil.
  - assert (forall skip' prev',
              Forall (fun m => pos <= m_start m
                        /\ (Chr.LF ∉ take (m_end m - m_start m)
                                         (drop (m_start m - pos) (c :: s))))
                (finditer_from r skip' prev' s (S pos))) as Hrec.
    { intros skip' prev'. eapply Forall_impl; [apply IH|].
      intros m [Hpos H]. split; [lia|].
      replace (m_start m - pos) with (S (m_start m - S pos)) by lia. done. }
    rewrite finditer_from_cons. destruct skip as [|skip]; [|apply Hrec].
    destruct (match_here r prev (c :: s)) as [n|] eqn:E; [|apply Hrec].
    constructor; [|apply Hrec]. cbn [m_start m_end]. split; [lia|].
    replace (pos + n - pos) with n by lia. rewrite Nat.sub_diag.
    by apply (match_here_no_lf r prev).
Qed.

Lemma finditer_group_no_lf (r : regex) s m :
  lf_excluded r = true -> m ∈ finditer r s -> Chr.LF ∉ group s m.
Proof.
  intros Hr Hm. pose proof (finditer_from_no_lf r Hr s 0 None 0) as H.
  rewrite Forall_forall in H. destruct (H m Hm) as [_ H'].
  unfold group, Str.slice. by rewrite Nat.sub_0_r in H'.
Qed.

(** *** Collapsed whitespace *)

Lemma rep_loop_total {A} body lo hi (k : @cont A) fuel cnt prev s :
  lo <= cnt -> (forall p t, is_Some (k p t)) ->
  is_Some (rep_loop body lo hi k fuel cnt prev s).
Proof.
  intros Hlo Hk. assert ((lo <=? cnt) = true) as Hle by (by apply Nat.leb_le).
  destruct fuel as [|fuel].
  - simpl. by rewrite Hle.
  - rewrite rep_loop_S. cbv zeta. rewrite Hle.
    destruct (below cnt hi); [|done]. by destruct (body prev s _).
Qed.

(** [\s+] matches wherever a whitespace character stands. *)
Lemma spaces_match_at_space prev c s :
  Chr.isspace c = true -> is_Some (match_here spaces_re prev (c :: s)).
Proof.
  intros Hc. unfold match_here, spaces_re, Plus.
  rewrite run_rep. cbn [length]. rewrite rep_loop_S. cbv zeta. cbn [below].
  rewrite run_cls, Hc.
  assert ((length s <? length (c :: s)) = true) as ->
    by (apply Nat.ltb_lt; simpl; lia).
  match goal with
  | |- context [rep_loop ?b ?lo ?hi ?k ?f ?n ?p s] =>
      destruct (rep_loop_total b lo hi k f n p s) as [a Ha];
        [lia|by eexists|rewrite Ha]
  end.
  done.
Qed.

(** A match of [\s+] is not empty. *)
Lemma spaces_match_positive prev s n :
  match_here spaces_re prev s = Some n -> 1 <= n.
Proof.
  unfold match_here, spaces_re, Plus. rewrite run_rep.
  destruct s as [|c s]; [done|]. cbn [length].
  rewrite rep_loop_S. cbv zeta. cbn [below]. rewrite run_cls.
  destruct (Chr.isspace c); [|done].
  assert ((length s <? length (c :: s)) = true) as ->
    by (apply Nat.ltb_lt; simpl; lia).
  destruct (rep_loop _ _ _ _ _ _ _ s) as [a|] eqn:E; [|done].
  intros [= <-].
  apply (rep_loop_reads (fun _ => True)) in E as (n0 & p0 & _ & E).
  - injection E as <-. rewrite length_drop. simpl. lia.
  - intros prev' s' k' a'. apply run_reads. apply (reads_anything (Cls Chr.isspace)).
Qed.

Lemma sub_from_nil r repl skip prev :
  sub_from r repl skip prev []
  = match skip with
    | S _ => []
    | 0 => match match_here r prev [] with Some _ => repl | None => [] end
    end.
Proof.
  destruct skip; [|done]. simpl.
  destruct (match_here r prev []); by rewrite ?app_nil_r.
Qed.

Lemma sub_from_cons r repl skip prev c s :
  sub_from r repl skip prev (c :: s)
  = match skip with
    | S skip' => sub_from r repl skip' (Some c) s
    | 0 => match match_here r prev (c :: s) with
           | Some n => repl ++ (if n =? 0 then [c] else [])
                         ++ sub_from r repl (pred n) (Some c) s
           | None => c :: sub_from r repl 0 (Some c) s
           end
    end.
Proof. by destruct skip. Qed.

Lemma isspace_LF : Chr.isspace Chr.LF = true.
Proof. reflexivity. Qed.

(** Whitespace collapsed to single spaces holds no line feed. *)
Lemma sub_spaces_no_lf (s : str) : Chr.LF ∉ sub spaces_re (py " ") s.
Proof.
  unfold sub. generalize 0 at 1. generalize (@None ascii).
  induction s as [|c s IH]; intros prev skip.
  - rewrite sub_from_nil. destruct skip; [|apply not_elem_of_nil].
    destruct (match_here _ _ _); [|apply not_elem_of_nil].
    apply (bool_decide_unpack _). by vm_compute.
  - rewrite sub_from_cons. destruct skip as [|skip]; [|apply IH].
    destruct (match_here spaces_re prev (c :: s)) as [n|] eqn:E.
    + apply spaces_match_positive in E.
      destruct n as [|n]; [lia|]. cbn [Nat.eqb app].
      rewrite not_elem_of_app. split; [|apply IH].
      apply (bool_decide_unpack _). by vm_compute.
    + apply not_elem_of_cons. split; [|apply IH].
      intros <-. destruct (spaces_match_at_space prev Chr.LF s isspace_LF) as [a Ha].
      by rewrite Ha in E.
Qed.

(** *** The lines of the header region *)

Lemma linebreak_LF (c : ascii) : Chr.linebreak c = false -> c <> Chr.LF.
Proof. by intros H ->. Qed.

Lemma splitlines_from_no_lf (n : nat) :
  forall s cur, length s <= n -> Chr.LF ∉ cur ->
    Forall (fun l => Chr.LF ∉ l) (Str.splitlines_from false cur s).
Proof.
  induction n as [|n IH]; intros s cur Hn Hcur.
  - destruct s; [|simpl in Hn; lia]. rewrite splitlines_from_nil.
    destruct (Str.truthy cur); repeat constructor; done.
  - destruct s as [|c s].
    + rewrite splitlines_from_nil.
      destruct (Str.truthy cur); repeat constructor; done.
    + rewrite splitlines_from_cons. simpl in Hn.
      destruct (Chr.linebreak c) eqn:Hc.
      * destruct s as [|c' s].
        -- repeat constructor. by rewrite app_nil_r.
        -- simpl in Hn. destruct (Ascii.eqb c Chr.CR && Ascii.eqb c' Chr.LF);
             (constructor; [by rewrite app_nil_r|]);
             apply IH; try (simpl; lia); apply not_elem_of_nil.
      * apply IH; [lia|]. rewrite not_elem_of_app. split; [done|].
        apply not_elem_of_cons. split; [|apply not_elem_of_nil].
        intros E. by apply (linebreak_LF c Hc).
Qed.

Lemma elem_of_lstrip (x : ascii) (s : str) : x ∈ Str.lstrip s -> x ∈ s.
Proof.
  induction s as [|c s IH]; [done|]. simpl.
  destruct (Chr.isspace c); [|done]. intros H. right. by apply IH.
Qed.

Lemma elem_of_strip (x : ascii) (s : str) : x ∈ Str.strip s -> x ∈ s.
Proof.
  unfold Str.strip, Str.rstrip. intros H.
  apply elem_of_lstrip. rewrite list_elem_of_In in *.
  apply in_rev in H. apply list_elem_of_In, elem_of_lstrip in H.
  apply list_elem_of_In in H. by apply in_rev.
Qed.

Lemma header_lines_no_lf (hb : str) (ln : str) :
  ln ∈ header_lines hb -> Chr.LF ∉ ln.
Proof.
  unfold header_lines. rewrite list_elem_of_In, in_map_iff.
  intros (l & <- & Hl). apply filter_In in Hl as [Hl _].
  intros Hin. apply elem_of_strip in Hin.
  pose proof (splitlines_from_no_lf (length hb) hb [] (le_n _)
                (not_elem_of_nil _)) as H.
  rewrite Forall_forall in H. apply list_elem_of_In in Hl.
  by apply (H l Hl).
Qed.

Lemma find_header_line_no_lf (f : str -> bool) (hb ln : str) :
  List.find f (header_lines hb) = Some ln -> Chr.LF ∉ ln.
Proof.
  intros H. apply find_some in H as [H _].
  by apply header_lines_no_lf with hb, list_elem_of_In.
Qed.

(** *** No extracted value holds a line feed *)

Lemma lf_free_empty : lf_free ∅.
Proof. intros k v H. by rewrite lookup_empty in H. Qed.

Lemma lf_free_insert (m : gmap string str) (k : string) (v : str) :
  Chr.LF ∉ v -> lf_free m -> lf_free (<[k := v]> m).
Proof.
  intros Hv Hm k' v'. rewrite lookup_insert_Some.
  intros [[_ <-]|[_ H]]; [done|]. by apply (Hm k').
Qed.

Lemma extract_filename_hints_lf_free (pdf_path : Path) :
  lf_free (extract_filename_hints pdf_path).
Proof.
  unfold extract_filename_hints. cbv zeta.
  repeat case_match;
    repeat (apply lf_free_insert);
    try apply lf_free_empty;
    first [ by apply (fullmatch_no_lf empno_hint_re)
          | by apply (fullmatch_no_lf hint_name_re) ].
Qed.

Lemma set_pan_lf_free hb (m : gmap string str) :
  lf_free m -> lf_free (set_pan hb m).
Proof.
  intros Hm. unfold set_pan. destruct (search pan_re hb) eqn:E; [|done].
  apply lf_free_insert; [|done]. by apply (search_group_no_lf pan_re).
Qed.

Lemma set_uan_lf_free hb (m : gmap string str) :
  lf_free m -> lf_free (set_uan hb m).
Proof.
  intros Hm. unfold set_uan, last_uan. rewrite fold_left_keep_last.
  destruct (last (finditer uan_re hb)) as [mt|] eqn:E; [|done].
  destruct (Str.truthy _); [|done].
  apply lf_free_insert; [|done].
  apply (finditer_group_no_lf uan_re); [done|]. by apply last_Some_elem_of.
Qed.

Lemma set_pf_lf_free hb (m : gmap string str) :
  lf_free m -> lf_free (set_pf hb m).
Proof.
  intros Hm. unfold set_pf. destruct (search pf_re hb) eqn:E; [|done].
  apply lf_free_insert; [|done]. by apply (search_group_no_lf pf_re).
Qed.

(** The account that the loop chooses is one of the matches. *)
Lemma chosen_account_elem (f : option Match -> Match -> option Match)
    (l : list Match) :
  (forall acc m, f acc m = acc \/ f acc m = Some m) ->
  forall acc a, fold_left f l acc = Some a -> acc = Some a \/ a ∈ l.
Proof.
  intros Hf. induction l as [|m l IH]; intros acc a; simpl; [auto|].
  intros H. apply IH in H as [H|H]; [|right; by right].
  destruct (Hf acc m) as [E|E]; rewrite E in H; [by left|].
  injection H as ->. right. by left.
Qed.

Lemma parse_join_line_lf_free ln (m : gmap string str) :
  lf_free m -> lf_free (parse_join_line ln m).
Proof.
  intros Hm. unfold parse_join_line. cbv zeta.
  set (acct := fold_left _ (finditer long_digits_re _) None).
  assert (forall a, acct = Some a ->
            a ∈ finditer long_digits_re
                  match search days_re
                          match search date_re ln with
                          | Some m0 => drop (m_end m0) ln
                          | None => ln
                          end with
                  | Some m0 =>
                      drop (m_end m0)
                        match search date_re ln with
                        | Some m1 => drop (m_end m1) ln
                        | None => ln
                        end
                  | None =>
                      match search date_re ln with
                      | Some m0 => drop (m_end m0) ln
                      | None => ln
                      end
                  end) as Hacct.
  { intros a Ha. apply chosen_account_elem in Ha as [Ha|Ha]; [done|done|].
    intros acc m0. repeat case_match; auto. }
  clearbody acct.
  repeat case_match; simplify_eq;
    repeat (apply lf_free_insert);
    try done;
    match goal with
    | H : search ?r ?s = Some ?m0 |- Chr.LF ∉ group ?s ?m0 =>
        apply (search_group_no_lf r s m0 eq_refl H)
    | |- Chr.LF ∉ group _ _ =>
        apply (finditer_group_no_lf long_digits_re); [reflexivity|by apply Hacct]
    | |- Chr.LF ∉ sub _ _ _ => apply sub_spaces_no_lf
    end.
Qed.

Lemma set_join_fields_lf_free lines (m : gmap string str) :
  lf_free m -> lf_free (set_join_fields lines m).
Proof.
  intros Hm. unfold set_join_fields. cbv zeta.
  destruct (List.find _ lines) as [ln|]; [|done].
  destruct (Str.truthy ln); [|done]. by apply parse_join_line_lf_free.
Qed.

Lemma set_designation_lf_free hb (m : gmap string str) :
  lf_free m -> lf_free (set_designation (header_lines hb) m).
Proof.
  intros Hm. unfold set_designation, setdefault.
  destruct (List.find _ _) as [ln|] eqn:E; [|done].
  destruct (m !! _); [done|].
  apply lf_free_insert; [|done]. by apply find_header_line_no_lf in E.
Qed.

Lemma set_name_lf_free hb (m : gmap string str) :
  lf_free m -> lf_free (set_name (header_lines hb) m).
Proof.
  intros Hm. unfold set_name. case_bool_decide; [done|].
  destruct (List.find _ _) as [ln|] eqn:E; [|done].
  apply lf_free_insert; [|done]. by apply find_header_line_no_lf in E.
Qed.

Lemma set_empno_lf_free hb (hints m : gmap string str) :
  lf_free hints -> lf_free m -> lf_free (set_empno (header_lines hb) hints m).
Proof.
  intros Hh Hm. unfold set_empno. cbv zeta.
  destruct (hints !! _) as [e|] eqn:He.
  - apply lf_free_insert; [|done]. by apply (Hh _ _ He).
  - destruct (List.find _ _) as [ln|] eqn:E; [|done].
    apply lf_free_insert; [|done]. by apply find_header_line_no_lf in E.
Qed.

Lemma set_name_hint_lf_free (hints m : gmap string str) :
  lf_free hints -> lf_free m -> lf_free (set_name_hint hints m).
Proof.
  intros Hh Hm. unfold set_name_hint.
  destruct (hints !! _) as [n|] eqn:He; [|done].
  apply lf_free_insert; [|done]. by apply (Hh _ _ He).
Qed.

(** No value that the extraction returns holds a line feed. *)
Lemma parse_header_pairs_lf_free (md_text : str) (pdf_path : Path) :
  lf_free (parse_header_pairs md_text pdf_path).
Proof.
  unfold parse_header_pairs. cbv zeta.
  pose proof (extract_filename_hints_lf_free pdf_path).
  apply set_name_hint_lf_free; [done|].
  apply set_empno_lf_free; [done|].
  apply set_name_lf_free, set_designation_lf_free, set_join_fields_lf_free,
    set_pf_lf_free, set_uan_lf_free, set_pan_lf_free, lf_free_empty.
Qed.





(** * Further properties of the module *)

(** ** How many characters a match holds *)

Lemma rep_loop_bounds {A}
    (body : option ascii -> str -> @cont A -> option A)
    lo hi (k : @cont A) (mn : nat) (mx : option nat) :
  (forall prev s k' a, body prev s k' = Some a ->
     exists n prev', n <= length s /\ mn <= n /\ at_most n mx
                     /\ k' prev' (drop n s) = Some a) ->
  forall fuel cnt prev s a,
    rep_loop body lo hi k fuel cnt prev s = Some a ->
    exists n prev',
      n <= length s /\ (lo - cnt) * mn <= n
      /\ at_most n (match hi, mx with
                    | Some h, Some m => Some ((h - cnt) * m)
                    | _, _ => None
                    end)
      /\ k prev' (drop n s) = Some a.
Proof.
  intros Hbody.
  assert (forall cnt prev s a,
            (if lo <=? cnt then k prev s else None) = Some a ->
            exists n prev',
              n <= length s /\ (lo - cnt) * mn <= n
              /\ at_most n (match hi, mx with
                            | Some h, Some m => Some ((h - cnt) * m)
                            | _, _ => None
                            end)
              /\ k prev' (drop n s) = Some a) as Hstop.
  { intros cnt prev s a H. destruct (lo <=? cnt) eqn:E; [|done].
    apply Nat.leb_le in E. exists 0, prev.
    replace (lo - cnt) with 0 by lia.
    split; [lia|]. split; [lia|]. split; [|done].
    destruct hi, mx; unfold at_most; try done. apply Nat.le_0_l. }
  induction fuel as [|fuel IH]; intros cnt prev s a H.
  - exact (Hstop cnt prev s a H).
  - rewrite rep_loop_S in H. cbv zeta in H.
    destruct (below cnt hi) eqn:Hb; [|exact (Hstop cnt prev s a H)].
    destruct (body prev s _) as [a'|] eqn:E; [|exact (Hstop cnt prev s a H)].
    injection H as ->.
    apply Hbody in E as (n1 & p1 & Hle1 & Hmn1 & Hmx1 & E).
    destruct (length (drop n1 s) <? length s); [|done].
    apply IH in E as (n2 & p2 & Hle2 & Hmn2 & Hmx2 & E).
    rewrite length_drop in Hle2.
    exists (n1 + n2), p2. rewrite <- drop_drop.
    repeat split; [lia|nia| |done].
    destruct hi as [h|], mx as [m|]; simpl in *; try done.
    apply Nat.ltb_lt in Hb. nia.
Qed.

(** A run that succeeds has read a number of characters within the bounds
    of the pattern. *)
Lemma run_bounds {A} (r : regex) :
  forall prev s (k : @cont A) a,
    run r prev s k = Some a ->
    exists n prev',
      n <= length s /\ min_len r <= n /\ at_most n (max_len r)
      /\ k prev' (drop n s) = Some a.
Proof.
  induction r as [p| |r1 IH1 r2 IH2|r IH lo hi]; cbn [min_len max_len].
  - intros prev [|c s] k a; [done|]. rewrite run_cls.
    destruct (p c); [|done]. intros H.
    exists 1, (Some c). simpl. repeat split; [lia|lia|lia|done].
  - intros prev s k a. rewrite run_bnd.
    destruct (boundary _ _); [|done]. intros H.
    exists 0, prev. simpl. repeat split; [lia|lia|lia|done].
  - intros prev s k a. rewrite run_cat. intros H.
    apply IH1 in H as (n1 & p1 & Hle1 & Hmn1 & Hmx1 & H).
    apply IH2 in H as (n2 & p2 & Hle2 & Hmn2 & Hmx2 & H).
    rewrite length_drop in Hle2.
    exists (n1 + n2), p2. rewrite <- drop_drop.
    repeat split; [lia|lia| |done].
    destruct (max_len r1), (max_len r2); simpl in *; try done. lia.
  - intros prev s k a. rewrite run_rep. intros H.
    apply (rep_loop_bounds _ _ _ _ (min_len r) (max_len r)) in H
      as (n & p & Hle & Hmn & Hmx & H); [|apply IH].
    rewrite Nat.sub_0_r in Hmn. exists n, p.
    split; [done|]. split; [done|]. split; [|done].
    destruct hi as [h|], (max_len r) as [m|]; simpl in *; try done.
    by rewrite Nat.sub_0_r in Hmx.
Qed.

Lemma match_here_bounds (r : regex) prev s n :
  match_here r prev s = Some n ->
  n <= length s /\ min_len r <= n /\ at_most n (max_len r).
Proof.
  unfold match_here. intros H.
  apply run_bounds in H as (n0 & p & Hle & Hmn & Hmx & H).
  injection H as <-. rewrite length_drop.
  by replace (length s - (length s - n0)) with n0 by lia.
Qed.

Lemma match_here_reads (Q : ascii -> Prop) (r : regex) prev s n :
  reads_only Q r -> match_here r prev s = Some n -> Forall Q (take n s).
Proof.
  intros Hr H. unfold match_here in H.
  apply (run_reads Q r Hr) in H as (n0 & p & Hn0 & H).
  injection H as <-. rewrite length_drop.
  destruct (decide (n0 <= length s)).
  - by replace (length s - (length s - n0)) with n0 by lia.
  - replace (length s - (length s - n0)) with (length s) by lia.
    rewrite take_ge in Hn0 by lia. by rewrite take_ge by lia.
Qed.

Lemma fullmatch_bounds (r : regex) s :
  fullmatch r s = true ->
  min_len r <= length s /\ at_most (length s) (max_len r).
Proof.
  unfold fullmatch. intros H. apply bool_decide_eq_true in H as [u H].
  apply run_bounds in H as (n & p & Hle & Hmn & Hmx & H).
  destruct (drop n s) eqn:E; [|done].
  apply (f_equal length) in E. rewrite length_drop in E. simpl in E.
  by replace (length s) with n by lia.
Qed.

Lemma fullmatch_reads (Q : ascii -> Prop) (r : regex) s :
  reads_only Q r -> fullmatch r s = true -> Forall Q s.
Proof.
  unfold fullmatch. intros Hr H. apply bool_decide_eq_true in H as [u H].
  apply (run_reads Q r Hr) in H as (n & p & Hn & H).
  destruct (drop n s) eqn:E; [|done].
  apply (f_equal length) in E. rewrite length_drop in E. simpl in E.
  by rewrite take_ge in Hn by lia.
Qed.

(** ** Where a search finds its match *)

Lemma prev_at_cons prev c s j :
  prev_at prev (c :: s) (S j) = prev_at (Some c) s j.
Proof. by destruct j. Qed.

(** [search] returns the match at the least offset that has one. *)
Lemma search_from_spec (r : regex) :
  forall s prev pos m,
    search_from r prev s pos = Some m ->
    exists j n,
      m = mkMatch (pos + j) (pos + j + n) /\ j <= length s
      /\ match_here r (prev_at prev s j) (drop j s) = Some n
      /\ forall i, i < j -> match_here r (prev_at prev s i) (drop i s) = None.
Proof.
  induction s as [|c s IH]; intros prev pos m; cbn [search_from].
  - destruct (match_here r prev []) as [n|] eqn:E; [|done].
    intros [= <-]. exists 0, n. rewrite Nat.add_0_r.
    repeat split; [simpl; lia|done|]. intros i Hi. lia.
  - destruct (match_here r prev (c :: s)) as [n|] eqn:E.
    + intros [= <-]. exists 0, n. rewrite Nat.add_0_r.
      repeat split; [simpl; lia|done|]. intros i Hi. lia.
    + intros H. apply IH in H as (j & n & -> & Hj & Hm & Hnone).
      exists (S j), n. rewrite prev_at_cons. cbn [drop length].
      replace (pos + S j) with (S pos + j) by lia.
      repeat split; [lia|done|].
      intros [|i] Hi; [done|]. rewrite prev_at_cons. apply Hnone. lia.
Qed.

Lemma search_from_none (r : regex) :
  forall s prev pos,
    search_from r prev s pos = None ->
    forall i, match_here r (prev_at prev s i) (drop i s) = None
              \/ length s < i.
Proof.
  induction s as [|c s IH]; intros prev pos; cbn [search_from].
  - destruct (match_here r prev []) as [n|] eqn:E; [done|].
    intros _ [|i]; [by left|right; simpl; lia].
  - destruct (match_here r prev (c :: s)) as [n|] eqn:E; [done|].
    intros H [|i]; [by left|].
    rewrite prev_at_cons. cbn [drop length].
    destruct (IH _ _ H i); [by left|right; lia].
Qed.

(** The text of a found match: its length is that of the match, within the
    bounds of the pattern, and its characters are admitted by the classes. *)
Lemma search_group (Q : ascii -> Prop) (r : regex) s m :
  reads_only Q r -> search r s = Some m ->
  length (group s m) = m_end m - m_start m
  /\ min_len r <= length (group s m)
  /\ at_most (length (group s m)) (max_len r)
  /\ Forall Q (group s m).
Proof.
  intros Hr H. apply search_from_spec in H as (j & n & -> & Hj & Hm & _).
  pose proof (match_here_bounds _ _ _ _ Hm) as (Hle & Hmn & Hmx).
  pose proof (match_here_reads Q _ _ _ _ Hr Hm) as Hq.
  unfold group, Str.slice. cbn [m_start m_end].
  replace (0 + j + n - (0 + j)) with n by lia. rewrite Nat.add_0_l.
  assert (length (take n (drop j s)) = n) as Hl by (rewrite length_take; lia).
  rewrite Hl. repeat split; (done || lia).
Qed.

Lemma finditer_from_matches (r : regex) :
  forall s skip prev pos,
    Forall (fun m => exists j n,
              m = mkMatch (pos + j) (pos + j + n)
              /\ match_here r (prev_at prev s j) (drop j s) = Some n)
      (finditer_from r skip prev s pos).
Proof.
  induction s as [|c s IH]; intros skip prev pos.
  - rewrite finditer_from_nil. destruct skip; [|constructor].
    destruct (match_here r prev []) as [n|] eqn:E; constructor; [|constructor].
    exists 0, n. by rewrite Nat.add_0_r.
  - assert (forall skip' ,
              Forall (fun m => exists j n,
                        m = mkMatch (pos + j) (pos + j + n)
                        /\ match_here r (prev_at prev (c :: s) j)
                             (drop j (c :: s)) = Some n)
                (finditer_from r skip' (Some c) s (S pos))) as Hrec.
    { intros skip'. eapply Forall_impl; [apply IH|].
      intros m (j & n & -> & Hm). exists (S j), n.
      rewrite prev_at_cons. cbn [drop].
      split; [|done]. f_equal; lia. }
    rewrite finditer_from_cons. destruct skip as [|skip]; [|apply Hrec].
    destruct (match_here r prev (c :: s)) as [n|] eqn:E; [|apply Hrec].
    constructor; [|apply Hrec]. exists 0, n. by rewrite Nat.add_0_r.
Qed.

Lemma finditer_group (Q : ascii -> Prop) (r : regex) s m :
  reads_only Q r -> m ∈ finditer r s ->
  length (group s m) = m_end m - m_start m
  /\ min_len r <= length (group s m)
  /\ at_most (length (group s m)) (max_len r)
  /\ Forall Q (group s m).
Proof.
  intros Hr Hin. pose proof (finditer_from_matches r s 0 None 0) as H.
  rewrite Forall_forall in H. destruct (H m Hin) as (j & n & -> & Hm).
  pose proof (match_here_bounds _ _ _ _ Hm) as (Hle & Hmn & Hmx).
  pose proof (match_here_reads Q _ _ _ _ Hr Hm) as Hq.
  unfold group, Str.slice. cbn [m_start m_end].
  replace (0 + j + n - (0 + j)) with n by lia. rewrite Nat.add_0_l.
  assert (length (take n (drop j s)) = n) as Hl by (rewrite length_take; lia).
  rewrite Hl. repeat split; (done || lia).
Qed.

(** ** The join-line block, field by field *)

Lemma parse_join_line_puts (ln : str) (m : gmap string str) :
  parse_join_line ln m
  = put_text "Location" (join_location ln)
      (put_text "Bank Name" (join_bank_name ln)
         (put_group "IFS Code" (join_rest2 ln) (join_ifsc ln)
            (put_group "Bank Account" (join_rest2 ln) (join_account ln)
               (put_group "Payable Days" (join_rest ln) (join_days ln)
                  (put_group "Date of Joining" ln (search date_re ln) m))))).
Proof.
  unfold parse_join_line, put_text, put_group, join_location, join_bank_name,
    join_account, join_ifsc, join_rest2, join_days, join_rest, pick_account.
  cbv zeta.
  destruct (search date_re ln) as [d|]; destruct (search days_re _) as [y|];
    destruct (search ifsc_re _) as [i|]; destruct (fold_left _ _ None);
    reflexivity.
Qed.

Lemma put_group_eq key s mo (m : gmap string str) :
  put_group key s mo m !! key
  = match mo with Some mt => Some (group s mt) | None => m !! key end.
Proof. unfold put_group. destruct mo; by rewrite ?lookup_insert_eq. Qed.

Lemma put_group_ne key s mo (m : gmap string str) (k : string) :
  key <> k -> put_group key s mo m !! k = m !! k.
Proof. intros. unfold put_group. destruct mo; by rewrite ?lookup_insert_ne. Qed.

Lemma put_text_eq key vo (m : gmap string str) :
  put_text key vo m !! key
  = match vo with
    | Some v => if Str.truthy v then Some v else m !! key
    | None => m !! key
    end.
Proof.
  unfold put_text. destruct vo as [v|]; [destruct (Str.truthy v)|];
    by rewrite ?lookup_insert_eq.
Qed.

Lemma put_text_ne key vo (m : gmap string str) (k : string) :
  key <> k -> put_text key vo m !! k = m !! k.
Proof.
  intros. unfold put_text. destruct vo as [v|]; [destruct (Str.truthy v)|];
    by rewrite ?lookup_insert_ne.
Qed.

(** What [parse_header_pairs] returns under a key is what the block of
    that key left there. *)
Lemma parse_header_pairs_blocks (md_text : str) (pdf_path : Path) :
  parse_header_pairs md_text pdf_path
  = set_name_hint (extract_filename_hints pdf_path)
      (set_empno (header_lines (header_block_of md_text))
         (extract_filename_hints pdf_path) (map_before_empno md_text)).
Proof. reflexivity. Qed.

Lemma map_before_join_lookup (md_text : str) (k : string) :
  k ∉ ["PAN"; "UAN"; "PF No."]%string -> map_before_join md_text !! k = None.
Proof.
  rewrite !not_elem_of_cons. intros (?&?&?&_). unfold map_before_join.
  rewrite set_pf_frame, set_uan_frame, set_pan_frame by done.
  apply lookup_empty.
Qed.

(** ** X1: the keys of the extracted mapping *)

Lemma extracted_key_in_order (md_text : str) (pdf_path : Path)
    (k : string) (v : str) :
  parse_header_pairs md_text pdf_path !! k = Some v -> k ∈ order.
Proof.
  intros Hv.
  destruct (decide (k ∈ written_keys)) as [Hin|Hout].
  - unfold written_keys, join_keys in Hin. unfold order.
    repeat (apply elem_of_app in Hin as [Hin|Hin]);
      repeat (apply elem_of_cons in Hin as [->|Hin]);
      try (by apply elem_of_nil in Hin);
      apply (bool_decide_unpack _); by vm_compute.
  - by rewrite parse_header_pairs_unwritten in Hv.
Qed.

(** X1: every key of the mapping that [parse_header_pairs] returns is one
    of the thirteen canonical field names. *)
Theorem X1_keys_are_canonical (md_text : str) (pdf_path : Path) (k : string) :
  is_Some (parse_header_pairs md_text pdf_path !! k) -> k ∈ order.
Proof.
  intros [v Hv].
  destruct (decide (k ∈ written_keys)) as [Hin|Hout].
  - unfold written_keys, join_keys in Hin. unfold order.
    repeat (apply elem_of_app in Hin as [Hin|Hin]);
      repeat (apply elem_of_cons in Hin as [->|Hin]);
      try (by apply elem_of_nil in Hin);
      apply (bool_decide_unpack _); by vm_compute.
  - by rewrite parse_header_pairs_unwritten in Hv.
Qed.

Lemma X1_keys_are_canonical_witness :
  is_Some (parse_header_pairs
             (py "Lead Engineer" ++ [Chr.LF] ++ py "John Smith") example_path
             !! "Designation"%string)
  /\ "Designation"%string ∈ order.
Proof.
  assert (is_Some (parse_header_pairs
                     (py "Lead Engineer" ++ [Chr.LF] ++ py "John Smith")
                     example_path !! "Designation"%string)) as H.
  { vm_compute. by eexists. }
  split; [exact H|].
  exact (X1_keys_are_canonical _ _ _ H).
Defined.

(** ** X2: the file name wins *)

(** X2: an EmpNo or a Name that [extract_filename_hints] infers from the
    file name is what the mapping holds under that key, whatever the
    document says. *)
Theorem X2_filename_hints_win (md_text : str) (pdf_path : Path) :
  (forall e, extract_filename_hints pdf_path !! "EmpNo"%string = Some e ->
     parse_header_pairs md_text pdf_path !! "EmpNo"%string = Some e)
  /\ (forall n, extract_filename_hints pdf_path !! "Name"%string = Some n ->
        parse_header_pairs md_text pdf_path !! "Name"%string = Some n).
Proof.
  rewrite parse_header_pairs_blocks. split.
  - intros e He. rewrite set_name_hint_frame by done.
    unfold set_empno. rewrite He. apply lookup_insert_eq.
  - intros n Hn. unfold set_name_hint. rewrite Hn. apply lookup_insert_eq.
Qed.

(** ** X3: the name is not the designation *)

Lemma map_before_name_no_name (md_text : str) :
  map_before_name md_text !! "Name"%string = None.
Proof.
  unfold map_before_name.
  rewrite set_designation_frame by done.
  rewrite set_join_fields_frame by (apply (bool_decide_unpack _); by vm_compute).
  apply map_before_join_lookup. apply (bool_decide_unpack _). by vm_compute.
Qed.

(** X3: when the file name gives no Name, the line taken as Name is never
    the line taken as Designation. *)
Theorem X3_name_is_not_designation (md_text : str) (pdf_path : Path) (n : str) :
  extract_filename_hints pdf_path !! "Name"%string = None ->
  parse_header_pairs md_text pdf_path !! "Name"%string = Some n ->
  parse_header_pairs md_text pdf_path !! "Designation"%string <> Some n.
Proof.
  intros Hhint. rewrite parse_header_pairs_blocks.
  unfold set_name_hint. rewrite Hhint.
  rewrite !set_empno_frame by done. unfold map_before_empno.
  rewrite (set_name_frame _ _ "Designation") by done.
  unfold set_name. rewrite map_before_name_no_name.
  rewrite bool_decide_eq_false_2 by (by intros [? ?]).
  destruct (List.find _ _) as [ln|] eqn:E.
  - rewrite lookup_insert_eq. intros [= <-].
    apply find_some in E as [_ E]. apply andb_prop in E as [E _].
    apply negb_true_iff, bool_decide_eq_false in E. congruence.
  - by rewrite map_before_name_no_name.
Qed.

Lemma X3_name_is_not_designation_witness :
  parse_header_pairs
    (py "Lead Engineer" ++ [Chr.LF] ++ py "John Smith") example_path
    !! "Designation"%string <> Some (py "John Smith").
Proof.
  apply X3_name_is_not_designation.
  - vm_compute. reflexivity.
  - vm_compute. reflexivity.
Defined.

(** ** X4: which join-line fields come together *)

Lemma join_date_lookup ln (b : gmap string str) :
  parse_join_line ln b !! "Date of Joining"%string
  = match search date_re ln with
    | Some m => Some (group ln m)
    | None => b !! "Date of Joining"%string
    end.
Proof.
  rewrite parse_join_line_puts.
  rewrite ?put_text_ne, ?put_group_ne by done.
  rewrite ?put_text_eq, ?put_group_eq.
  by rewrite ?put_text_ne, ?put_group_ne by done.
Qed.

Lemma join_days_lookup ln (b : gmap string str) :
  parse_join_line ln b !! "Payable Days"%string
  = match join_days ln with
    | Some m => Some (group (join_rest ln) m)
    | None => b !! "Payable Days"%string
    end.
Proof.
  rewrite parse_join_line_puts.
  rewrite ?put_text_ne, ?put_group_ne by done.
  rewrite ?put_text_eq, ?put_group_eq.
  by rewrite ?put_text_ne, ?put_group_ne by done.
Qed.

Lemma join_account_lookup ln (b : gmap string str) :
  parse_join_line ln b !! "Bank Account"%string
  = match join_account ln with
    | Some m => Some (group (join_rest2 ln) m)
    | None => b !! "Bank Account"%string
    end.
Proof.
  rewrite parse_join_line_puts.
  rewrite ?put_text_ne, ?put_group_ne by done.
  rewrite ?put_text_eq, ?put_group_eq.
  by rewrite ?put_text_ne, ?put_group_ne by done.
Qed.

Lemma join_ifsc_lookup ln (b : gmap string str) :
  parse_join_line ln b !! "IFS Code"%string
  = match join_ifsc ln with
    | Some m => Some (group (join_rest2 ln) m)
    | None => b !! "IFS Code"%string
    end.
Proof.
  rewrite parse_join_line_puts.
  rewrite ?put_text_ne, ?put_group_ne by done.
  rewrite ?put_text_eq, ?put_group_eq.
  by rewrite ?put_text_ne, ?put_group_ne by done.
Qed.

Lemma join_bank_name_lookup ln (b : gmap string str) :
  parse_join_line ln b !! "Bank Name"%string
  = match join_bank_name ln with
    | Some v => if Str.truthy v then Some v else b !! "Bank Name"%string
    | None => b !! "Bank Name"%string
    end.
Proof.
  rewrite parse_join_line_puts.
  rewrite ?put_text_ne, ?put_group_ne by done.
  rewrite ?put_text_eq, ?put_group_eq.
  by rewrite ?put_text_ne, ?put_group_ne by done.
Qed.

Lemma join_location_lookup ln (b : gmap string str) :
  parse_join_line ln b !! "Location"%string
  = match join_location ln with
    | Some v => if Str.truthy v then Some v else b !! "Location"%string
    | None => b !! "Location"%string
    end.
Proof.
  rewrite parse_join_line_puts.
  rewrite ?put_text_ne, ?put_group_ne by done.
  rewrite ?put_text_eq, ?put_group_eq.
  by rewrite ?put_text_ne, ?put_group_ne by done.
Qed.

Lemma fold_pick_no_ifsc rest2 (l : list Match) (acc : option Match) :
  fold_left (pick_account rest2 None) l acc = acc.
Proof. revert acc. induction l as [|m l IH]; intros acc; simpl; auto. Qed.

Lemma join_account_needs_ifsc ln :
  is_Some (join_account ln) -> is_Some (join_ifsc ln).
Proof.
  unfold join_account. destruct (join_ifsc ln); [by eexists|].
  rewrite fold_pick_no_ifsc. by intros [? ?].
Qed.

(** The join fields of the result are those of the join-line block. *)
Lemma parse_header_pairs_join_key (md_text : str) (pdf_path : Path) (k : string) :
  k ∈ join_keys ->
  parse_header_pairs md_text pdf_path !! k
  = set_join_fields (header_lines (header_block_of md_text))
      (map_before_join md_text) !! k.
Proof.
  intros Hk. rewrite parse_header_pairs_blocks.
  unfold map_before_empno, map_before_name, join_keys in *.
  repeat (apply elem_of_cons in Hk as [->|Hk]);
    try (by apply elem_of_nil in Hk);
    by rewrite set_name_hint_frame, set_empno_frame, set_name_frame,
         set_designation_frame by done.
Qed.

(** Either a join line is found, with a date and an IFSC on it, and the
    block is [parse_join_line] on it, or the map is left as it is. *)
Lemma set_join_fields_cases (lines : list str) (m : gmap string str) :
  (exists ln, ln ∈ lines /\ is_Some (search date_re ln)
              /\ is_Some (search ifsc_re ln)
              /\ set_join_fields lines m = parse_join_line ln m)
  \/ set_join_fields lines m = m.
Proof.
  unfold set_join_fields. cbv zeta.
  destruct (List.find _ lines) as [ln|] eqn:E; [|by right].
  destruct (Str.truthy ln); [|by right]. left. exists ln.
  apply find_some in E as [Hin E]. apply andb_prop in E as [E1 E2].
  apply bool_decide_eq_true in E1. apply bool_decide_eq_true in E2.
  split; [by apply list_elem_of_In|done].
Qed.

(** X4: the fields of the join line come together.  With any of the six
    there is a Date of Joining; with a Bank Account there is an IFS Code;
    with a Bank Name there are a Payable Days and a Bank Account; with a
    Location there is an IFS Code. *)
Theorem X4_join_fields_come_together (md_text : str) (pdf_path : Path) :
  let m := parse_header_pairs md_text pdf_path in
  (forall k, k ∈ join_keys -> is_Some (m !! k) ->
     is_Some (m !! "Date of Joining"%string))
  /\ (is_Some (m !! "Bank Account"%string) -> is_Some (m !! "IFS Code"%string))
  /\ (is_Some (m !! "Bank Name"%string) ->
      is_Some (m !! "Payable Days"%string)
      /\ is_Some (m !! "Bank Account"%string))
  /\ (is_Some (m !! "Location"%string) -> is_Some (m !! "IFS Code"%string)).
Proof.
  intros m. subst m.
  assert (forall k, k ∈ join_keys -> map_before_join md_text !! k = None)
    as Hnone.
  { intros k Hk. apply map_before_join_lookup. unfold join_keys in Hk.
    repeat (apply elem_of_cons in Hk as [->|Hk]);
      try (by apply elem_of_nil in Hk);
      apply (bool_decide_unpack _); by vm_compute. }
  assert (forall k, k ∈ join_keys ->
            parse_header_pairs md_text pdf_path !! k
            = set_join_fields (header_lines (header_block_of md_text))
                (map_before_join md_text) !! k) as Hkey
    by (intros; by apply parse_header_pairs_join_key).
  assert ("Date of Joining"%string ∈ join_keys) as Kd
    by (apply (bool_decide_unpack _); by vm_compute).
  assert ("Payable Days"%string ∈ join_keys) as Ky
    by (apply (bool_decide_unpack _); by vm_compute).
  assert ("Bank Account"%string ∈ join_keys) as Ka
    by (apply (bool_decide_unpack _); by vm_compute).
  assert ("IFS Code"%string ∈ join_keys) as Ki
    by (apply (bool_decide_unpack _); by vm_compute).
  assert ("Bank Name"%string ∈ join_keys) as Kb
    by (apply (bool_decide_unpack _); by vm_compute).
  assert ("Location"%string ∈ join_keys) as Kl
    by (apply (bool_decide_unpack _); by vm_compute).
  rewrite (Hkey _ Kd), (Hkey _ Ky), (Hkey _ Ka), (Hkey _ Ki), (Hkey _ Kb),
    (Hkey _ Kl).
  destruct (set_join_fields_cases (header_lines (header_block_of md_text))
              (map_before_join md_text))
    as [(ln & _ & [d Hd] & _ & ->)|E].
  - rewrite join_date_lookup, join_days_lookup, join_account_lookup,
      join_ifsc_lookup, join_bank_name_lookup, join_location_lookup, Hd.
    rewrite !Hnone by done.
    split; [by eexists|]. split; [|split].
    + intros [v Hv]. destruct (join_account ln) as [a|] eqn:E; [|done].
      destruct (join_account_needs_ifsc ln) as [i ->]; by eexists.
    + intros [v Hv]. unfold join_bank_name in Hv.
      destruct (join_days ln), (join_account ln); done.
    + intros [v Hv]. unfold join_location in Hv.
      destruct (join_ifsc ln); [by eexists|done].
  - rewrite E, !Hnone by done. split.
    + intros k Hk. rewrite (Hkey k Hk), E, (Hnone k Hk). by intros [? ?].
    + split; [|split]; by intros [? ?].
Qed.

(** ** X5: the header region and the body *)

Lemma startswith_app_l (p : str) :
  forall s t, Str.startswith s p = true -> Str.startswith (s ++ t) p = true.
Proof.
  induction p as [|a p IH]; intros s t; [by rewrite !startswith_nil|].
  destruct s as [|b s]; [done|]. cbn [app]. rewrite !startswith_cons.
  intros H. apply andb_prop in H as [-> H]. by rewrite (IH s t H).
Qed.

Lemma header_block_no_marker (md_text : str) (i : nat) :
  ~ marker_at (header_block_of md_text) i.
Proof.
  destruct (cut_index_earliest md_text) as (Hmin & _ & Hle).
  unfold header_block_of. intros Hi.
  pose proof (marker_at_lt_length _ _ Hi) as Hlt.
  rewrite length_take in Hlt.
  destruct Hi as (m & Hm & Hst).
  assert (marker_at md_text i) as Hi'.
  { exists m. split; [done|].
    rewrite <- (take_drop (cut_index md_text) md_text) at 1.
    rewrite drop_app_le by (rewrite length_take; lia).
    by apply startswith_app_l. }
  apply Hmin in Hi'. lia.
Qed.

(** X5: the header region and the text from the cut index on make up the
    document; no marker starts inside the header region; the rest is empty
    or starts with a marker. *)
Theorem X5_header_region_has_no_marker (md_text : str) :
  header_block_of md_text ++ drop (cut_index md_text) md_text = md_text
  /\ (forall i, ~ marker_at (header_block_of md_text) i)
  /\ (drop (cut_index md_text) md_text = []
      \/ marker_at (drop (cut_index md_text) md_text) 0).
Proof.
  destruct (cut_index_earliest md_text) as (Hmin & Hat & Hle).
  split; [apply take_drop|]. split.
  - apply header_block_no_marker.
  - destruct (decide (cut_index md_text < length md_text)) as [Hlt|Hge].
    + right. destruct (Hat Hlt) as (m & Hm & Hst). by exists m.
    + left. apply drop_ge. lia.
Qed.

(** ** X6: rewriting twice with one mapping *)

(** X6: with a mapping that [parse_header_pairs] returned, of whatever
    document, the header region of the rewritten text is the emitted header
    block, and rewriting the rewritten text with the same mapping gives it
    back unchanged. *)
Theorem X6_rewrite_twice_same_mapping
    (md_text other_text : str) (pdf_path : Path) :
  let m := parse_header_pairs other_text pdf_path in
  header_block_of (rewrite_header md_text m) = clean_header m
  /\ rewrite_header (rewrite_header md_text m) m = rewrite_header md_text m.
Proof.
  intros m. pose proof (parse_header_pairs_lf_free other_text pdf_path) as Hlf.
  fold m in Hlf. clearbody m. split.
  - unfold header_block_of. rewrite cut_index_rewritten by done.
    unfold rewrite_header. cbv zeta. by rewrite take_app_length.
  - by apply rewrite_header_idempotent.
Qed.

(** ** X7: the filter only deletes *)

Lemma splitlines_from_nonempty (n : nat) :
  forall s cur, length s <= n ->
    Forall (fun l => l <> []) (Str.splitlines_from true cur s).
Proof.
  induction n as [|n IH]; intros s cur Hn.
  - destruct s; [|simpl in Hn; lia]. rewrite splitlines_from_nil.
    destruct cur; repeat constructor; done.
  - destruct s as [|c s].
    + rewrite splitlines_from_nil. destruct cur; repeat constructor; done.
    + rewrite splitlines_from_cons. simpl in Hn.
      destruct (Chr.linebreak c).
      * destruct s as [|c' s].
        -- repeat constructor. by destruct cur.
        -- simpl in Hn. destruct (Ascii.eqb c Chr.CR && Ascii.eqb c' Chr.LF);
             (constructor; [by destruct cur|]); apply IH; simpl; lia.
      * apply IH. lia.
Qed.

Lemma concat_filter_length {A} (f : list A -> bool) (l : list (list A)) :
  Forall (fun x => x <> []) l ->
  length (concat (List.filter f l)) <= length (concat l)
  /\ (length (concat (List.filter f l)) = length (concat l) ->
      List.filter f l = l).
Proof.
  induction 1 as [|x l Hx Hl [IH1 IH2]]; [done|]. cbn [List.filter].
  destruct (f x); cbn [concat]; rewrite ?length_app.
  - split; [lia|]. intros H. f_equal. apply IH2. lia.
  - split; [lia|]. intros H. destruct x; [done|]. simpl in H. lia.
Qed.

Lemma filter_all {A} (f : A -> bool) (l : list A) :
  Forall (fun x => f x = true) l -> List.filter f l = l.
Proof.
  induction 1 as [|x l Hx Hl IH]; [done|]. simpl. by rewrite Hx, IH.
Qed.

(** X7: [_clean_first_table] returns its input or a strictly shorter text;
    it returns its input whenever no delimiter-prefixed line of the text is
    one that the filter drops, in particular when there is no such line. *)
Theorem X7_filter_only_deletes (md_text : str) (header_keys : gmap string str) :
  length (_clean_first_table md_text header_keys) <= length md_text
  /\ (length (_clean_first_table md_text header_keys) = length md_text ->
      _clean_first_table md_text header_keys = md_text)
  /\ ((forall ln, ln ∈ Str.splitlines md_text true ->
         is_table_line ln = true ->
         row_kept (key_tokens header_keys) ln = true) ->
      _clean_first_table md_text header_keys = md_text).
Proof.
  pose proof (clean_first_table_filter md_text header_keys) as Hout.
  pose proof (first_table_is_first_table (Str.splitlines md_text true)) as Hft.
  pose proof (splitlines_from_nonempty (length md_text) md_text []
                (le_n _)) as Hne.
  fold (Str.splitlines md_text true) in Hne.
  destruct (first_table (Str.splitlines md_text true)) as [[pre table] post].
  destruct Hft as (Hlines & _ & Htable & _).
  assert (md_text = concat pre ++ concat table ++ concat post) as HT.
  { rewrite <- (splitlines_concat md_text) at 1.
    by rewrite Hlines, !concat_app. }
  assert (Forall (fun l => l <> []) table) as Hne'.
  { rewrite Hlines in Hne. apply Forall_app in Hne as [_ Hne].
    by apply Forall_app in Hne as [Hne _]. }
  destruct (concat_filter_length (row_kept (key_tokens header_keys)) table Hne')
    as [Hle Heq].
  rewrite Hout. split; [|split].
  - rewrite HT at 1. rewrite !length_app. lia.
  - intros H. rewrite HT in H at 1. rewrite !length_app in H.
    rewrite Heq by lia. by rewrite <- HT.
  - intros Hall. rewrite filter_all; [by rewrite <- HT|].
    rewrite Forall_forall in Htable. apply Forall_forall. intros ln Hln.
    apply Hall; [|by apply Htable].
    rewrite Hlines. apply elem_of_app. right. apply elem_of_app. by left.
Qed.

(** ** X8: what a hint is made of *)

Lemma reads_digit_hint : reads_only (fun c => Chr.decimal c = true) empno_hint_re.
Proof. by intros c. Qed.

Lemma reads_alpha : reads_only (fun c => azAZ c = true) alpha_re.
Proof. by intros c. Qed.

(** X8: [extract_filename_hints] returns no key but EmpNo and Name, and
    nothing at all for a base name of fewer than three tokens.  An EmpNo is
    the last token, a run of at least four decimal digits; a Name is the
    third-to-last and the second-to-last token of at least four, joined by
    a space, the second-to-last being letters only. *)
Theorem X8_hints_come_from_tokens (pdf_path : Path) :
  let hints := extract_filename_hints pdf_path in
  let tokens := name_tokens pdf_path in
  (forall k, is_Some (hints !! k) -> k = "EmpNo"%string \/ k = "Name"%string)
  /\ (length tokens < 3 -> hints = ∅)
  /\ (forall e, hints !! "EmpNo"%string = Some e ->
        3 <= length tokens /\ last tokens = Some e /\ digit_run4 e)
  /\ (forall n, hints !! "Name"%string = Some n ->
        4 <= length tokens
        /\ exists third prev,
             Str.item_neg tokens 3 = Some third
             /\ Str.item_neg tokens 2 = Some prev
             /\ n = third ++ py " " ++ prev
             /\ prev <> []
             /\ Forall (fun c => azAZ c = true) prev).
Proof.
  intros hints tokens. subst hints tokens.
  unfold extract_filename_hints, name_tokens. cbv zeta.
  set (parts := Str.split (stem pdf_path) "_").
  destruct (3 <=? length parts) eqn:H3.
  2: { apply Nat.leb_gt in H3. repeat split; try done;
       intros ? H; rewrite lookup_empty in H; by destruct H || done. }
  apply Nat.leb_le in H3. rewrite item_neg_last.
  destruct (last parts) as [lst|] eqn:Hlast;
    [|apply last_None in Hlast; rewrite Hlast in H3; simpl in H3; lia].
  destruct (item_neg_is_Some parts 2) as [prev Hprev]; [lia|]. rewrite Hprev.
  assert (forall e, fullmatch empno_hint_re e = true -> digit_run4 e) as Hdig.
  { intros e He. split.
    - by apply fullmatch_bounds in He as [He _].
    - by apply (fullmatch_reads _ _ _ reads_digit_hint). }
  assert (fullmatch alpha_re prev = true ->
          prev <> [] /\ Forall (fun c => azAZ c = true) prev) as Halpha.
  { intros He. split.
    - apply fullmatch_bounds in He as [He _]. simpl in He.
      intros ->. simpl in He. lia.
    - by apply (fullmatch_reads _ _ _ reads_alpha). }
  split; [|split; [intros; lia|split]].
  - intros k [v Hv]. revert Hv.
    repeat case_match; rewrite ?lookup_insert_Some, ?lookup_empty;
      intuition (subst; auto; done).
  - intros e. repeat case_match;
      rewrite ?lookup_insert_ne by done;
      rewrite ?lookup_insert_eq, ?lookup_empty; try done;
      intros [= <-]; auto.
  - intros n. repeat case_match;
      rewrite ?lookup_insert_eq;
      rewrite ?lookup_insert_ne by done;
      rewrite ?lookup_empty; try done;
      intros [= <-];
      match goal with
      | H : _ && (4 <=? _) = true |- _ =>
          apply andb_prop in H as [Ha H4]; apply Nat.leb_le in H4
      end;
      (split; [done|]); eexists _, _;
      (split; [done|]); (split; [done|]); (split; [done|]); by apply Halpha.
Qed.

(** ** X9, X10: what the values look like *)

Ltac bounds_in H :=
  repeat match type of H with
    | context [min_len ?r] =>
        let x := eval vm_compute in (min_len r) in
        change (min_len r) with x in H
    | context [max_len ?r] =>
        let x := eval vm_compute in (max_len r) in
        change (max_len r) with x in H
    end;
  unfold at_most in H.

Ltac shape :=
  split;
  [ intros Hnil; rewrite Hnil in *; simpl in *; (lia || done)
  | repeat split; first [ discriminate | done | lia ] ].

Lemma shaped_empty : shaped ∅.
Proof. intros k v H. by rewrite lookup_empty in H. Qed.

Lemma shaped_insert (m : gmap string str) (k : string) (v : str) :
  well_shaped k v -> shaped m -> shaped (<[k := v]> m).
Proof.
  intros Hv Hm k' v'. rewrite lookup_insert_Some.
  intros [[<- <-]|[_ H]]; [done|]. by apply (Hm k').
Qed.

Lemma reads_upper (c : ascii) : Chr.AZ c = true -> AZ09 c = true.
Proof. intros H. unfold AZ09. by rewrite H. Qed.

Lemma reads_pan : reads_only (fun c => AZ09 c = true) pan_re.
Proof.
  cbv [reads_only pan_re Times].
  repeat split; try done; apply reads_upper.
Qed.

Lemma reads_ifsc : reads_only (fun c => AZ09 c = true) ifsc_re.
Proof.
  cbv [reads_only ifsc_re Times Lit].
  repeat split; try done; try apply reads_upper.
  intros c Hc. apply Ascii.eqb_eq in Hc as <-. reflexivity.
Qed.

Lemma reads_uan : reads_only (fun c => Chr.decimal c = true) uan_re.
Proof. cbv [reads_only uan_re Times digit]. by repeat split. Qed.

Lemma reads_days : reads_only (fun c => Chr.decimal c = true) days_re.
Proof. cbv [reads_only days_re digit]. by repeat split. Qed.

Lemma reads_long_digits :
  reads_only (fun c => Chr.decimal c = true) long_digits_re.
Proof. cbv [reads_only long_digits_re digit]. by repeat split. Qed.

Lemma pan_shape s mt :
  search pan_re s = Some mt -> well_shaped "PAN" (group s mt).
Proof.
  intros E. destruct (search_group _ _ _ _ reads_pan E) as (_ & Hmn & Hmx & Hq).
  bounds_in Hmn. bounds_in Hmx. shape.
Qed.

Lemma pf_shape s mt :
  search pf_re s = Some mt -> well_shaped "PF No." (group s mt).
Proof.
  intros E.
  destruct (search_group _ _ _ _ (reads_anything _) E) as (_ & Hmn & _ & _).
  bounds_in Hmn. shape.
Qed.

Lemma date_shape s mt :
  search date_re s = Some mt -> well_shaped "Date of Joining" (group s mt).
Proof.
  intros E.
  destruct (search_group _ _ _ _ (reads_anything _) E) as (_ & Hmn & Hmx & _).
  bounds_in Hmn. bounds_in Hmx. shape.
Qed.

Lemma days_shape s mt :
  search days_re s = Some mt -> well_shaped "Payable Days" (group s mt).
Proof.
  intros E. destruct (search_group _ _ _ _ reads_days E) as (_ & Hmn & Hmx & Hq).
  bounds_in Hmn. bounds_in Hmx. shape.
Qed.

Lemma ifsc_shape s mt :
  search ifsc_re s = Some mt -> well_shaped "IFS Code" (group s mt).
Proof.
  intros E. destruct (search_group _ _ _ _ reads_ifsc E) as (_ & Hmn & Hmx & Hq).
  bounds_in Hmn. bounds_in Hmx. shape.
Qed.

Lemma uan_shape s mt :
  mt ∈ finditer uan_re s -> well_shaped "UAN" (group s mt).
Proof.
  intros E. destruct (finditer_group _ _ _ _ reads_uan E) as (_ & Hmn & Hmx & Hq).
  bounds_in Hmn. bounds_in Hmx. shape.
Qed.

Lemma account_shape s mt :
  mt ∈ finditer long_digits_re s -> well_shaped "Bank Account" (group s mt).
Proof.
  intros E.
  destruct (finditer_group _ _ _ _ reads_long_digits E) as (_ & Hmn & _ & Hq).
  bounds_in Hmn. shape.
Qed.

(** A value that is only known not to be empty is well shaped under a key
    that is none of the identifiers. *)
Lemma text_shape (k : string) (v : str) :
  k ∈ ["Bank Name"; "Location"; "Designation"; "Name"; "EmpNo"]%string ->
  v <> [] -> well_shaped k v.
Proof.
  intros Hk Hv.
  repeat (apply elem_of_cons in Hk as [->|Hk]);
    try (by apply elem_of_nil in Hk);
    (split; [done|]; repeat split; discriminate).
Qed.

Lemma truthy_nonempty (v : str) : Str.truthy v = true -> v <> [].
Proof. by destruct v. Qed.

Lemma header_lines_nonempty (hb ln : str) : ln ∈ header_lines hb -> ln <> [].
Proof.
  unfold header_lines. rewrite list_elem_of_In, in_map_iff.
  intros (l & <- & Hl). apply filter_In in Hl as [_ Hl].
  by apply truthy_nonempty.
Qed.

Lemma find_header_line_nonempty (f : str -> bool) (hb ln : str) :
  List.find f (header_lines hb) = Some ln -> ln <> [].
Proof.
  intros H. apply find_some in H as [H _].
  by apply header_lines_nonempty with hb, list_elem_of_In.
Qed.

Lemma extract_filename_hints_shaped (pdf_path : Path) :
  shaped (extract_filename_hints pdf_path).
Proof.
  assert (forall e, fullmatch empno_hint_re e = true -> e <> []) as Hdig.
  { intros e He. apply fullmatch_bounds in He as [He _]. bounds_in He.
    intros ->. simpl in He. lia. }
  unfold extract_filename_hints. cbv zeta.
  repeat case_match;
    repeat (apply shaped_insert; [apply text_shape|]);
    try apply shaped_empty;
    try (apply (bool_decide_unpack _); by vm_compute);
    first [ by apply Hdig
          | intros Hnil; apply app_eq_nil in Hnil as [_ Hnil];
            simpl in Hnil; discriminate Hnil ].
Qed.

Lemma set_pan_shaped hb (m : gmap string str) :
  shaped m -> shaped (set_pan hb m).
Proof.
  intros Hm. unfold set_pan. destruct (search pan_re hb) eqn:E; [|done].
  apply shaped_insert; [|done]. by apply pan_shape.
Qed.

Lemma set_uan_shaped hb (m : gmap string str) :
  shaped m -> shaped (set_uan hb m).
Proof.
  intros Hm. unfold set_uan, last_uan. rewrite fold_left_keep_last.
  destruct (last (finditer uan_re hb)) as [mt|] eqn:E; [|done].
  destruct (Str.truthy _); [|done].
  apply shaped_insert; [|done]. by apply uan_shape, last_Some_elem_of.
Qed.

Lemma set_pf_shaped hb (m : gmap string str) :
  shaped m -> shaped (set_pf hb m).
Proof.
  intros Hm. unfold set_pf. destruct (search pf_re hb) eqn:E; [|done].
  apply shaped_insert; [|done]. by apply pf_shape.
Qed.

Lemma put_group_shaped key s mo (m : gmap string str) :
  (forall mt, mo = Some mt -> well_shaped key (group s mt)) ->
  shaped m -> shaped (put_group key s mo m).
Proof.
  intros Hv Hm. unfold put_group. destruct mo as [mt|]; [|done].
  apply shaped_insert; [|done]. by apply Hv.
Qed.

Lemma put_text_shaped key vo (m : gmap string str) :
  key ∈ ["Bank Name"; "Location"; "Designation"; "Name"; "EmpNo"]%string ->
  shaped m -> shaped (put_text key vo m).
Proof.
  intros Hk Hm. unfold put_text. destruct vo as [v|]; [|done].
  destruct (Str.truthy v) eqn:E; [|done].
  apply shaped_insert; [|done]. apply text_shape; [done|].
  by apply truthy_nonempty.
Qed.

Lemma join_account_elem ln a :
  join_account ln = Some a -> a ∈ finditer long_digits_re (join_rest2 ln).
Proof.
  unfold join_account. intros Ha.
  apply chosen_account_elem in Ha as [Ha|Ha]; [done|done|].
  intros acc m0. unfold pick_account. repeat case_match; auto.
Qed.

Lemma parse_join_line_shaped ln (m : gmap string str) :
  shaped m -> shaped (parse_join_line ln m).
Proof.
  intros Hm. rewrite parse_join_line_puts.
  apply put_text_shaped; [apply (bool_decide_unpack _); by vm_compute|].
  apply put_text_shaped; [apply (bool_decide_unpack _); by vm_compute|].
  apply put_group_shaped; [intros mt; apply ifsc_shape|].
  apply put_group_shaped; [intros mt Hmt; by apply account_shape, join_account_elem|].
  apply put_group_shaped; [intros mt; apply days_shape|].
  apply put_group_shaped; [intros mt; apply date_shape|].
  done.
Qed.

Lemma set_join_fields_shaped lines (m : gmap string str) :
  shaped m -> shaped (set_join_fields lines m).
Proof.
  intros Hm. destruct (set_join_fields_cases lines m) as [(ln & _ & _ & _ & ->)| ->];
    [by apply parse_join_line_shaped|done].
Qed.

Lemma set_designation_shaped hb (m : gmap string str) :
  shaped m -> shaped (set_designation (header_lines hb) m).
Proof.
  intros Hm. unfold set_designation, setdefault.
  destruct (List.find _ _) as [ln|] eqn:E; [|done].
  destruct (m !! _); [done|].
  apply shaped_insert; [|done].
  apply text_shape; [apply (bool_decide_unpack _); by vm_compute|].
  by apply find_header_line_nonempty in E.
Qed.

Lemma set_name_shaped hb (m : gmap string str) :
  shaped m -> shaped (set_name (header_lines hb) m).
Proof.
  intros Hm. unfold set_name. case_bool_decide; [done|].
  destruct (List.find _ _) as [ln|] eqn:E; [|done].
  apply shaped_insert; [|done].
  apply text_shape; [apply (bool_decide_unpack _); by vm_compute|].
  by apply find_header_line_nonempty in E.
Qed.

Lemma set_empno_shaped hb (hints m : gmap string str) :
  shaped hints -> shaped m -> shaped (set_empno (header_lines hb) hints m).
Proof.
  intros Hh Hm. unfold set_empno. cbv zeta.
  destruct (hints !! _) as [e|] eqn:He.
  - apply shaped_insert; [|done]. by apply (Hh _ _ He).
  - destruct (List.find _ _) as [ln|] eqn:E; [|done].
    apply shaped_insert; [|done].
    apply text_shape; [apply (bool_decide_unpack _); by vm_compute|].
    by apply find_header_line_nonempty in E.
Qed.

Lemma set_name_hint_shaped (hints m : gmap string str) :
  shaped hints -> shaped m -> shaped (set_name_hint hints m).
Proof.
  intros Hh Hm. unfold set_name_hint.
  destruct (hints !! _) as [n|] eqn:He; [|done].
  apply shaped_insert; [|done]. by apply (Hh _ _ He).
Qed.

Lemma map_before_empno_shaped (md_text : str) :
  shaped (map_before_empno md_text).
Proof.
  unfold map_before_empno, map_before_name, map_before_join.
  apply set_name_shaped, set_designation_shaped, set_join_fields_shaped,
    set_pf_shaped, set_uan_shaped, set_pan_shaped, shaped_empty.
Qed.

Lemma parse_header_pairs_shaped (md_text : str) (pdf_path : Path) :
  shaped (parse_header_pairs md_text pdf_path).
Proof.
  rewrite parse_header_pairs_blocks.
  pose proof (extract_filename_hints_shaped pdf_path).
  apply set_name_hint_shaped; [done|].
  apply set_empno_shaped; [done|]. apply map_before_empno_shaped.
Qed.

Lemma field_line_in_clean_lines (m : gmap string str) (k : string) (v : str) :
  k ∈ order -> m !! k = Some v -> v <> [] -> field_line k v ∈ clean_lines m.
Proof.
  intros Hk Hv Hne. rewrite clean_lines_flat_map, list_elem_of_In, in_flat_map.
  exists k. split; [by apply list_elem_of_In|]. rewrite Hv.
  destruct v; [done|]. by left.
Qed.

Lemma nonempty_lines_present_lines (m : gmap string str) :
  (forall k v, m !! k = Some v -> v <> []) ->
  nonempty_lines m = present_lines m.
Proof.
  intros H. unfold nonempty_lines, present_lines, nonempty_value.
  induction order as [|key l IH]; simpl; [done|].
  change (list_omap string str) with (@omap list _ string str).
  rewrite IH.
  destruct (m !! key) as [v|] eqn:E; [|done].
  destruct v; [by apply H in E|done].
Qed.

(** X9: no value of the mapping that [parse_header_pairs] returns is the
    empty string, so [rewrite_header] writes one line for every pair of the
    mapping: the test [if val:] never drops a field that was extracted. *)
Theorem X9_every_field_is_written (md_text : str) (pdf_path : Path) :
  let m := parse_header_pairs md_text pdf_path in
  (forall k v, m !! k = Some v ->
     v <> [] /\ field_line k v ∈ clean_lines m)
  /\ clean_lines m = present_lines m.
Proof.
  intros m.
  assert (forall k v, m !! k = Some v -> v <> []) as Hne.
  { intros k v Hv. by apply (parse_header_pairs_shaped md_text pdf_path) in Hv as [Hv _]. }
  split.
  - intros k v Hv. split; [by apply (Hne k)|].
    apply field_line_in_clean_lines; [|done|by apply (Hne k)].
    by apply (extracted_key_in_order md_text pdf_path k v).
  - rewrite clean_lines_nonempty_lines. by apply nonempty_lines_present_lines.
Qed.

(** X10: the identifiers in the mapping have the length and the characters
    of their pattern.  A PAN is 10 capitals or digits, a UAN 12 digits, an
    IFS Code 11 capitals or digits, a Date of Joining 10 characters, a
    Payable Days 1 to 3 digits, a Bank Account 10 digits or more, a PF No.
    5 characters or more. *)
Theorem X10_identifier_shapes (md_text : str) (pdf_path : Path) :
  let m := parse_header_pairs md_text pdf_path in
  (forall v, m !! "PAN"%string = Some v ->
     length v = 10 /\ Forall (fun c => AZ09 c = true) v)
  /\ (forall v, m !! "UAN"%string = Some v ->
        length v = 12 /\ Forall (fun c => Chr.decimal c = true) v)
  /\ (forall v, m !! "PF No."%string = Some v -> 5 <= length v)
  /\ (forall v, m !! "Date of Joining"%string = Some v -> length v = 10)
  /\ (forall v, m !! "Payable Days"%string = Some v ->
        1 <= length v <= 3 /\ Forall (fun c => Chr.decimal c = true) v)
  /\ (forall v, m !! "Bank Account"%string = Some v ->
        10 <= length v /\ Forall (fun c => Chr.decimal c = true) v)
  /\ (forall v, m !! "IFS Code"%string = Some v ->
        length v = 11 /\ Forall (fun c => AZ09 c = true) v).
Proof.
  intros m. pose proof (parse_header_pairs_shaped md_text pdf_path) as H.
  split_and!; intros v Hv;
    apply H in Hv as (_ & H1 & H2 & H3 & H4 & H5 & H6 & H7).
  - by apply H1.
  - by apply H2.
  - by apply H3.
  - by apply H4.
  - by apply H5.
  - by apply H6.
  - by apply H7.
Qed.

(** ** X11: the employee number read from the text *)

Lemma used_nums_elem (m : gmap string str) (v : str) :
  v ∈ used_nums m ->
  m !! "UAN"%string = Some v \/ m !! "Bank Account"%string = Some v
  \/ m !! "Payable Days"%string = Some v.
Proof.
  unfold used_nums. cbn [fold_left].
  destruct (m !! "UAN"%string) as [u|];
    destruct (m !! "Bank Account"%string) as [a|];
    destruct (m !! "Payable Days"%string) as [d|];
    repeat match goal with
      | |- context [if ?b then _ else _] => destruct b
      end;
    rewrite ?elem_of_cons, ?elem_of_nil; intuition (subst; auto).
Qed.

Lemma find_pointwise {A} (f g : A -> bool) (l : list A) :
  (forall x, x ∈ l -> f x = g x) -> List.find f l = List.find g l.
Proof.
  induction l as [|x l IH]; intros H; simpl; [done|].
  rewrite (H x) by (by left). rewrite IH; [done|].
  intros y Hy. apply H. by right.
Qed.

(** A line of 4 to 8 digits is none of the numbers set aside. *)
Lemma empno_line_not_used (md_text : str) (ln : str) :
  fullmatch empno_line_re ln = true -> ln ∉ used_nums (map_before_empno md_text).
Proof.
  intros Hm Hin. apply fullmatch_bounds in Hm as [Hmn Hmx].
  bounds_in Hmn. bounds_in Hmx.
  pose proof (map_before_empno_shaped md_text) as Hs.
  apply used_nums_elem in Hin as [H|[H|H]];
    apply Hs in H as (_ & _ & H2 & _ & _ & H5 & H6 & _).
  - destruct H2 as [H2 _]; [done|]. lia.
  - destruct H6 as [H6 _]; [done|]. lia.
  - destruct H5 as [H5 _]; [done|]. lia.
Qed.

(** X11: the numbers that the EmpNo block sets aside (UAN, Bank Account,
    Payable Days) never exclude a line: without a hint from the file name,
    the EmpNo of the mapping is the first line of the header region that
    is 4 to 8 digits and nothing else, and there is none if no line is. *)
Theorem X11_empno_is_first_digit_line (md_text : str) (pdf_path : Path) :
  extract_filename_hints pdf_path !! "EmpNo"%string = None ->
  parse_header_pairs md_text pdf_path !! "EmpNo"%string
  = List.find (fullmatch empno_line_re) (header_lines (header_block_of md_text)).
Proof.
  intros Hh. rewrite parse_header_pairs_blocks.
  rewrite set_name_hint_frame by done.
  unfold set_empno. rewrite Hh. cbv zeta.
  rewrite (find_pointwise _ (fullmatch empno_line_re)).
  - destruct (List.find _ _) as [ln|]; [by rewrite lookup_insert_eq|].
    unfold map_before_empno, map_before_name.
    rewrite set_name_frame, set_designation_frame, set_join_fields_frame
      by (done || (apply (bool_decide_unpack _); by vm_compute)).
    by apply map_before_join_lookup, (bool_decide_unpack _).
  - intros ln _. destruct (fullmatch empno_line_re ln) eqn:E; [|done].
    simpl. apply negb_true_iff, bool_decide_eq_false.
    by apply empno_line_not_used.
Qed.

Lemma X11_empno_is_first_digit_line_witness :
  parse_header_pairs
    (py "Lead Engineer" ++ [Chr.LF] ++ py "123456789012" ++ [Chr.LF]
       ++ py "20415") example_path !! "EmpNo"%string
  = List.find (fullmatch empno_line_re)
      (header_lines
         (header_block_of
            (py "Lead Engineer" ++ [Chr.LF] ++ py "123456789012" ++ [Chr.LF]
               ++ py "20415"))).
Proof.
  apply X11_empno_is_first_digit_line. vm_compute. reflexivity.
Defined.

(** ** X12: which digit run becomes the bank account *)







(** ** X13: the header is written, then the body is filtered *)

(** *** Every value stays on one line *)

Lemma upper_one_line c : Chr.AZ c = true -> Chr.linebreak c = false.
Proof. destruct c as [[] [] [] [] [] [] [] []]; by vm_compute. Qed.

Lemma upper_digit_one_line c : AZ09 c = true -> Chr.linebreak c = false.
Proof. destruct c as [[] [] [] [] [] [] [] []]; by vm_compute. Qed.

Lemma decimal_one_line c : Chr.decimal c = true -> Chr.linebreak c = false.
Proof. destruct c as [[] [] [] [] [] [] [] []]; by vm_compute. Qed.

Lemma letter_one_line c : azAZ c = true -> Chr.linebreak c = false.
Proof. destruct c as [[] [] [] [] [] [] [] []]; by vm_compute. Qed.

Lemma lit_one_line a c :
  Chr.linebreak a = false -> Ascii.eqb a c = true -> Chr.linebreak c = false.
Proof. intros Ha Hc. by apply Ascii.eqb_eq in Hc as <-. Qed.

Lemma linebreak_isspace c : Chr.linebreak c = true -> Chr.isspace c = true.
Proof. destruct c as [[] [] [] [] [] [] [] []]; by vm_compute. Qed.

Ltac one_line_classes :=
  repeat split;
  first [ exact upper_one_line | exact upper_digit_one_line
        | exact decimal_one_line | exact letter_one_line
        | intros c; by apply lit_one_line ].

Lemma pan_one_line : reads_only (fun c => Chr.linebreak c = false) pan_re.
Proof. cbv [reads_only pan_re Times]. one_line_classes. Qed.

Lemma uan_one_line : reads_only (fun c => Chr.linebreak c = false) uan_re.
Proof. cbv [reads_only uan_re Times digit]. one_line_classes. Qed.

Lemma pf_one_line : reads_only (fun c => Chr.linebreak c = false) pf_re.
Proof. cbv [reads_only pf_re Lit Plus digit]. one_line_classes. Qed.

Lemma ifsc_one_line : reads_only (fun c => Chr.linebreak c = false) ifsc_re.
Proof. cbv [reads_only ifsc_re Times Lit]. one_line_classes. Qed.

Lemma date_one_line : reads_only (fun c => Chr.linebreak c = false) date_re.
Proof. cbv [reads_only date_re Times Lit digit]. one_line_classes. Qed.

Lemma days_one_line : reads_only (fun c => Chr.linebreak c = false) days_re.
Proof. cbv [reads_only days_re digit]. one_line_classes. Qed.

Lemma long_digits_one_line :
  reads_only (fun c => Chr.linebreak c = false) long_digits_re.
Proof. cbv [reads_only long_digits_re digit]. one_line_classes. Qed.

Lemma empno_hint_one_line :
  reads_only (fun c => Chr.linebreak c = false) empno_hint_re.
Proof. cbv [reads_only empno_hint_re digit]. one_line_classes. Qed.

Lemma hint_name_one_line :
  reads_only (fun c => Chr.linebreak c = false) hint_name_re.
Proof. cbv [reads_only hint_name_re cap_word Lit Plus]. one_line_classes. Qed.

(** Whitespace collapsed to single spaces stays on one line. *)
Lemma sub_spaces_one_line (s : str) : one_line (sub spaces_re (py " ") s).
Proof.
  unfold sub, one_line. generalize 0 at 1. generalize (@None ascii).
  change (py " ") with [" "%char].
  induction s as [|c s IH]; intros prev skip.
  - rewrite sub_from_nil. destruct skip; [|constructor].
    destruct (match_here _ _ _); by repeat constructor.
  - rewrite sub_from_cons. destruct skip as [|skip]; [|apply IH].
    destruct (match_here spaces_re prev (c :: s)) as [n|] eqn:E.
    + apply spaces_match_positive in E.
      destruct n as [|n]; [lia|]. cbn [Nat.eqb app].
      constructor; [done|apply IH].
    + constructor; [|apply IH].
      destruct (Chr.linebreak c) eqn:Hc; [|done].
      apply linebreak_isspace in Hc.
      destruct (spaces_match_at_space prev c s Hc) as [a Ha].
      by rewrite Ha in E.
Qed.

Lemma splitlines_from_one_line (n : nat) :
  forall s cur, length s <= n -> one_line cur ->
    Forall one_line (Str.splitlines_from false cur s).
Proof.
  induction n as [|n IH]; intros s cur Hn Hcur.
  - destruct s; [|simpl in Hn; lia]. rewrite splitlines_from_nil.
    destruct (Str.truthy cur); repeat constructor; done.
  - destruct s as [|c s].
    + rewrite splitlines_from_nil.
      destruct (Str.truthy cur); repeat constructor; done.
    + rewrite splitlines_from_cons. simpl in Hn.
      destruct (Chr.linebreak c) eqn:Hc.
      * destruct s as [|c' s].
        -- repeat constructor. by rewrite app_nil_r.
        -- simpl in Hn. destruct (Ascii.eqb c Chr.CR && Ascii.eqb c' Chr.LF);
             (constructor; [by rewrite app_nil_r|]);
             apply IH; try (simpl; lia); constructor.
      * apply IH; [lia|]. apply Forall_app. split; [done|].
        by repeat constructor.
Qed.

Lemma header_lines_one_line (hb : str) (ln : str) :
  ln ∈ header_lines hb -> one_line ln.
Proof.
  unfold header_lines. rewrite list_elem_of_In, in_map_iff.
  intros (l & <- & Hl). apply filter_In in Hl as [Hl _].
  pose proof (splitlines_from_one_line (length hb) hb [] (le_n _)
                (List.Forall_nil _)) as H.
  rewrite Forall_forall in H. apply list_elem_of_In in Hl.
  specialize (H l Hl). unfold one_line in *. rewrite Forall_forall in *.
  intros c Hc. by apply H, elem_of_strip.
Qed.

Lemma find_header_line_one_line (f : str -> bool) (hb ln : str) :
  List.find f (header_lines hb) = Some ln -> one_line ln.
Proof.
  intros H. apply find_some in H as [H _].
  by apply header_lines_one_line with hb, list_elem_of_In.
Qed.

Lemma one_line_empty : one_line_values ∅.
Proof. intros k v H. by rewrite lookup_empty in H. Qed.

Lemma one_line_insert (m : gmap string str) (k : string) (v : str) :
  one_line v -> one_line_values m -> one_line_values (<[k := v]> m).
Proof.
  intros Hv Hm k' v'. rewrite lookup_insert_Some.
  intros [[_ <-]|[_ H]]; [done|]. by apply (Hm k').
Qed.

Lemma search_one_line r s mt :
  reads_only (fun c => Chr.linebreak c = false) r ->
  search r s = Some mt -> one_line (group s mt).
Proof. intros Hr E. by destruct (search_group _ _ _ _ Hr E) as (_ & _ & _ & ?). Qed.

Lemma finditer_one_line r s mt :
  reads_only (fun c => Chr.linebreak c = false) r ->
  mt ∈ finditer r s -> one_line (group s mt).
Proof. intros Hr E. by destruct (finditer_group _ _ _ _ Hr E) as (_ & _ & _ & ?). Qed.

Lemma extract_filename_hints_one_line (pdf_path : Path) :
  one_line_values (extract_filename_hints pdf_path).
Proof.
  unfold extract_filename_hints. cbv zeta.
  repeat case_match;
    repeat (apply one_line_insert);
    try apply one_line_empty;
    first [ by apply (fullmatch_reads _ empno_hint_re _ empno_hint_one_line)
          | by apply (fullmatch_reads _ hint_name_re _ hint_name_one_line) ].
Qed.

Lemma set_pan_one_line hb (m : gmap string str) :
  one_line_values m -> one_line_values (set_pan hb m).
Proof.
  intros Hm. unfold set_pan. destruct (search pan_re hb) eqn:E; [|done].
  apply one_line_insert; [|done]. by apply (search_one_line pan_re _ _ pan_one_line).
Qed.

Lemma set_uan_one_line hb (m : gmap string str) :
  one_line_values m -> one_line_values (set_uan hb m).
Proof.
  intros Hm. unfold set_uan, last_uan. rewrite fold_left_keep_last.
  destruct (last (finditer uan_re hb)) as [mt|] eqn:E; [|done].
  destruct (Str.truthy _); [|done].
  apply one_line_insert; [|done].
  apply (finditer_one_line uan_re); [apply uan_one_line|].
  by apply last_Some_elem_of.
Qed.

Lemma set_pf_one_line hb (m : gmap string str) :
  one_line_values m -> one_line_values (set_pf hb m).
Proof.
  intros Hm. unfold set_pf. destruct (search pf_re hb) eqn:E; [|done].
  apply one_line_insert; [|done]. by apply (search_one_line pf_re _ _ pf_one_line).
Qed.

Lemma put_group_one_line key s mo (m : gmap string str) :
  (forall mt, mo = Some mt -> one_line (group s mt)) ->
  one_line_values m -> one_line_values (put_group key s mo m).
Proof.
  intros Hv Hm. unfold put_group. destruct mo as [mt|]; [|done].
  apply one_line_insert; [|done]. by apply Hv.
Qed.

Lemma put_text_one_line key vo (m : gmap string str) :
  (forall v, vo = Some v -> one_line v) ->
  one_line_values m -> one_line_values (put_text key vo m).
Proof.
  intros Hv Hm. unfold put_text. destruct vo as [v|]; [|done].
  destruct (Str.truthy v); [|done].
  apply one_line_insert; [|done]. by apply Hv.
Qed.

Lemma parse_join_line_one_line ln (m : gmap string str) :
  one_line_values m -> one_line_values (parse_join_line ln m).
Proof.
  intros Hm. rewrite parse_join_line_puts.
  apply put_text_one_line.
  { unfold join_location. intros v Hv. destruct (join_ifsc ln); [|done].
    injection Hv as <-. apply sub_spaces_one_line. }
  apply put_text_one_line.
  { unfold join_bank_name. intros v Hv.
    destruct (join_days ln); [|done]. destruct (join_account ln); [|done].
    injection Hv as <-. apply sub_spaces_one_line. }
  apply put_group_one_line;
    [intros mt; apply (search_one_line ifsc_re _ _ ifsc_one_line)|].
  apply put_group_one_line.
  { intros mt Hmt. apply (finditer_one_line long_digits_re);
      [apply long_digits_one_line|by apply join_account_elem]. }
  apply put_group_one_line;
    [intros mt; apply (search_one_line days_re _ _ days_one_line)|].
  apply put_group_one_line;
    [intros mt; apply (search_one_line date_re _ _ date_one_line)|].
  done.
Qed.

Lemma set_join_fields_one_line lines (m : gmap string str) :
  one_line_values m -> one_line_values (set_join_fields lines m).
Proof.
  intros Hm.
  destruct (set_join_fields_cases lines m) as [(ln & _ & _ & _ & ->)| ->];
    [by apply parse_join_line_one_line|done].
Qed.

Lemma set_designation_one_line hb (m : gmap string str) :
  one_line_values m -> one_line_values (set_designation (header_lines hb) m).
Proof.
  intros Hm. unfold set_designation, setdefault.
  destruct (List.find _ _) as [ln|] eqn:E; [|done].
  destruct (m !! _); [done|].
  apply one_line_insert; [|done]. by apply find_header_line_one_line in E.
Qed.

Lemma set_name_one_line hb (m : gmap string str) :
  one_line_values m -> one_line_values (set_name (header_lines hb) m).
Proof.
  intros Hm. unfold set_name. case_bool_decide; [done|].
  destruct (List.find _ _) as [ln|] eqn:E; [|done].
  apply one_line_insert; [|done]. by apply find_header_line_one_line in E.
Qed.

Lemma set_empno_one_line hb (hints m : gmap string str) :
  one_line_values hints -> one_line_values m ->
  one_line_values (set_empno (header_lines hb) hints m).
Proof.
  intros Hh Hm. unfold set_empno. cbv zeta.
  destruct (hints !! _) as [e|] eqn:He.
  - apply one_line_insert; [|done]. by apply (Hh _ _ He).
  - destruct (List.find _ _) as [ln|] eqn:E; [|done].
    apply one_line_insert; [|done]. by apply find_header_line_one_line in E.
Qed.

Lemma set_name_hint_one_line (hints m : gmap string str) :
  one_line_values hints -> one_line_values m ->
  one_line_values (set_name_hint hints m).
Proof.
  intros Hh Hm. unfold set_name_hint.
  destruct (hints !! _) as [n|] eqn:He; [|done].
  apply one_line_insert; [|done]. by apply (Hh _ _ He).
Qed.

(** No value that the extraction returns holds a line boundary. *)
Lemma parse_header_pairs_one_line (md_text : str) (pdf_path : Path) :
  one_line_values (parse_header_pairs md_text pdf_path).
Proof.
  unfold parse_header_pairs. cbv zeta.
  pose proof (extract_filename_hints_one_line pdf_path).
  apply set_name_hint_one_line; [done|].
  apply set_empno_one_line; [done|].
  apply set_name_one_line, set_designation_one_line, set_join_fields_one_line,
    set_pf_one_line, set_uan_one_line, set_pan_one_line, one_line_empty.
Qed.

(** *** The lines of the clean header *)

Lemma splitlines_from_line (l : str) :
  one_line l -> forall cur t,
    Str.splitlines_from true cur (l ++ Chr.LF :: t)
    = (cur ++ l ++ [Chr.LF]) :: Str.splitlines_from true [] t.
Proof.
  induction 1 as [|c l Hc Hl IH]; intros cur t.
  - cbn [app]. rewrite splitlines_from_cons.
    change (Chr.linebreak Chr.LF) with true. cbv iota.
    destruct t as [|c' t]; [by rewrite splitlines_from_nil|].
    by change (Ascii.eqb Chr.LF Chr.CR) with false.
  - cbn [app]. rewrite splitlines_from_cons, Hc, IH.
    by rewrite <- app_assoc.
Qed.

Lemma splitlines_lines (ls : list str) (t : str) :
  Forall one_line ls ->
  Str.splitlines (concat (map (fun l => l ++ [Chr.LF]) ls) ++ t) true
  = map (fun l => l ++ [Chr.LF]) ls ++ Str.splitlines t true.
Proof.
  unfold Str.splitlines. induction 1 as [|l ls Hl Hls IH]; [done|].
  cbn [map concat]. rewrite <- !app_assoc. cbn [app].
  rewrite splitlines_from_line by done. by rewrite IH.
Qed.

Lemma span_prefix {A} (f : A -> bool) (a b : list A) :
  Forall (fun x => f x = true) a ->
  span f (a ++ b) = (a ++ (span f b).1, (span f b).2).
Proof.
  induction 1 as [|x a Hx Ha IH]; cbn [app span].
  - by destruct (span f b).
  - by rewrite Hx, IH.
Qed.

(** The filter passes over lines that are not rows of a table and that
    stand in front of the text. *)
Lemma clean_first_table_prefix (ls : list str) (rest : str)
    (header_keys : gmap string str) :
  Forall one_line ls ->
  Forall (fun l => is_table_line (l ++ [Chr.LF]) = false) ls ->
  _clean_first_table (concat (map (fun l => l ++ [Chr.LF]) ls) ++ rest)
    header_keys
  = concat (map (fun l => l ++ [Chr.LF]) ls)
    ++ _clean_first_table rest header_keys.
Proof.
  intros Hone Hnot.
  pose proof (clean_first_table_filter
                (concat (map (fun l => l ++ [Chr.LF]) ls) ++ rest)
                header_keys) as H1.
  pose proof (clean_first_table_filter rest header_keys) as H2.
  rewrite splitlines_lines in H1 by done.
  unfold first_table in H1, H2.
  rewrite span_prefix in H1.
  2: { apply Forall_map. eapply Forall_impl; [exact Hnot|].
       intros l Hl. simpl. by rewrite Hl. }
  destruct (span (fun ln => negb (is_table_line ln))
              (Str.splitlines rest true)) as [pre rest'].
  cbn [fst snd] in H1.
  destruct (span is_table_line rest') as [table post].
  rewrite H1, H2. by rewrite concat_app, <- app_assoc.
Qed.

Lemma field_line_one_line (key : string) (v : str) :
  key ∈ order -> one_line v -> one_line (field_line key v).
Proof.
  intros Hkey Hv. unfold field_line, one_line.
  rewrite !Forall_app. split; [|split; [|split; [|done]]];
    try (apply (bool_decide_unpack _); by vm_compute).
  unfold order in Hkey.
  repeat (apply elem_of_cons in Hkey as [->|Hkey]);
    try (apply (bool_decide_unpack _); by vm_compute).
  by apply elem_of_nil in Hkey.
Qed.

(** The clean header is a block of lines, each on one line and none a row
    of a table. *)
Lemma clean_header_lines (m : gmap string str) :
  one_line_values m ->
  exists ls,
    clean_header m = concat (map (fun l => l ++ [Chr.LF]) ls)
    /\ Forall one_line ls
    /\ Forall (fun l => is_table_line (l ++ [Chr.LF]) = false) ls.
Proof.
  intros Hm.
  assert (Forall (fun l => one_line l
                           /\ is_table_line (l ++ [Chr.LF]) = false)
            (clean_lines m)) as Hlines.
  { rewrite clean_lines_flat_map. apply Forall_forall. intros l.
    rewrite list_elem_of_In, in_flat_map. intros (key & Hkey & Hl).
    apply list_elem_of_In in Hkey. apply list_elem_of_In in Hl.
    destruct (m !! key) as [v|] eqn:E; [|by apply elem_of_nil in Hl].
    destruct (Str.truthy v); [|by apply elem_of_nil in Hl].
    apply list_elem_of_singleton in Hl as ->. split; [|done].
    apply field_line_one_line; [done|]. by apply (Hm key). }
  apply Forall_and in Hlines as [H1 H2].
  rewrite clean_header_block, <- clean_lines_nonempty_lines. unfold block_of.
  assert (one_line []) as Hnil by constructor.
  assert (is_table_line ([] ++ [Chr.LF]) = false) as Hblank by reflexivity.
  destruct (clean_lines m) as [|l ls] eqn:E.
  - exists [[]; []]. split; [done|].
    split; (constructor; [done|]); (constructor; [done|]); constructor.
  - exists ((l :: ls) ++ [[]]). rewrite map_app, concat_app, app_nil_r.
    split; [done|]. rewrite !Forall_app.
    split; (split; [done|]); (constructor; [done|]); constructor.
Qed.

(** The filter leaves the header that was just written alone. *)
Lemma clean_first_table_after_header (m : gmap string str) (rest : str)
    (header_keys : gmap string str) :
  one_line_values m ->
  _clean_first_table (clean_header m ++ rest) header_keys
  = clean_header m ++ _clean_first_table rest header_keys.
Proof.
  intros Hm. destruct (clean_header_lines m Hm) as (ls & -> & H1 & H2).
  by apply clean_first_table_prefix.
Qed.

(** X13: the text that [convert_with_fix] writes is the clean header of the
    extracted mapping followed by the filtered body: the filter of the
    first table never touches a line of the header, and it works on the
    text from the cut index on as if that text stood alone. *)
Theorem X13_header_then_filtered_body (md_text : str) (pdf_path : Path) :
  fix_markdown md_text pdf_path
  = clean_header (parse_header_pairs md_text pdf_path)
    ++ _clean_first_table (drop (cut_index md_text) md_text) canonical_keys.
Proof.
  unfold fix_markdown, rewrite_header. cbv zeta.
  apply clean_first_table_after_header, parse_header_pairs_one_line.
Qed.

(** ** X14: the body has no influence on the extraction *)

Lemma startswith_app_inv (p : str) :
  forall s t, length p <= length s ->
    Str.startswith (s ++ t) p = true -> Str.startswith s p = true.
Proof.
  induction p as [|a p IH]; intros s t Hlen; [by rewrite !startswith_nil|].
  destruct s as [|b s]; [simpl in Hlen; lia|]. cbn [app].
  rewrite !startswith_cons. intros H. apply andb_prop in H as [-> H].
  simpl in Hlen. by rewrite (IH s t) by (done || lia).
Qed.

Lemma startswith_lookup (p : str) :
  forall s j c, Str.startswith s p = true -> p !! j = Some c -> s !! j = Some c.
Proof.
  induction p as [|a p IH]; intros s j c Hst Hj; [done|].
  apply startswith_cons_inv in Hst as (s' & -> & Hst).
  destruct j as [|j]; [done|]. simpl in *. by apply IH.
Qed.

(** After its line feed a marker holds no other one. *)
Lemma marker_tail_no_lf (m : str) (j : nat) :
  m ∈ markers -> 1 <= j -> m !! j <> Some Chr.LF.
Proof.
  unfold markers. intros Hm Hj.
  destruct j as [|j]; [lia|].
  repeat (apply elem_of_cons in Hm as [->|Hm]);
    try (by apply elem_of_nil in Hm);
    do 3 (destruct j as [|j]; [done|]); done.
Qed.

(** Behind a text in which no marker starts, a body that is empty or
    starts with a marker begins at the cut index. *)
Lemma cut_index_header_body (H body : str) :
  (forall i, ~ marker_at H i) ->
  body = [] \/ marker_at body 0 ->
  cut_index (H ++ body) = length H.
Proof.
  intros Hno Hbody.
  destruct (cut_index_earliest (H ++ body)) as (Hmin & Hat & Hle).
  destruct (decide (cut_index (H ++ body) < length H)) as [Hlt|Hge].
  - exfalso. set (i := cut_index (H ++ body)) in *.
    destruct Hat as (m & Hm & Hst); [rewrite length_app; lia|].
    rewrite drop_app_le in Hst by lia.
    destruct (decide (i + length m <= length H)) as [Hin|Hout].
    + apply (Hno i). exists m. split; [done|].
      apply (startswith_app_inv m _ body); [|done].
      rewrite length_drop. lia.
    + assert (is_Some (m !! (length H - i))) as [c Hc].
      { apply lookup_lt_is_Some. lia. }
      pose proof (startswith_lookup _ _ _ _ Hst Hc) as Hc'.
      rewrite lookup_app_r in Hc' by (rewrite length_drop; lia).
      rewrite length_drop in Hc'.
      replace (length H - i - (length H - i)) with 0 in Hc' by lia.
      destruct Hbody as [->|(m' & Hm' & Hst')]; [done|].
      destruct (marker_shape m' Hm') as (x & t & -> & _).
      apply startswith_cons_inv in Hst' as (b' & Hb' & _).
      rewrite drop_0 in Hb'. rewrite Hb' in Hc'. injection Hc' as <-.
      by apply (marker_tail_no_lf m (length H - i) Hm); [lia|].
  - destruct Hbody as [->|Hmk].
    + rewrite app_nil_r in *. lia.
    + assert (marker_at (H ++ body) (length H)) as Hmk'.
      { destruct Hmk as (m & Hm & Hst). exists m. split; [done|].
        by rewrite drop_app_length. }
      pose proof (Hmin _ Hmk'). lia.
Qed.

(** X14: the extraction reads the header region and nothing else.  If that
    region is followed by any other body (a text that is empty or starts
    with one of the three markers), or by nothing at all,
    [parse_header_pairs] returns the same mapping. *)
Theorem X14_body_has_no_influence (md_text body : str) (pdf_path : Path) :
  body = [] \/ marker_at body 0 ->
  parse_header_pairs (header_block_of md_text ++ body) pdf_path
  = parse_header_pairs md_text pdf_path.
Proof.
  intros Hbody. unfold parse_header_pairs. cbv zeta.
  assert (header_block_of (header_block_of md_text ++ body)
          = header_block_of md_text) as ->; [|done].
  unfold header_block_of at 1.
  rewrite cut_index_header_body by (done || apply header_block_no_marker).
  by rewrite take_app_length.
Qed.

Lemma X14_body_has_no_influence_witness :
  parse_header_pairs
    (header_block_of two_tables ++ Chr.LF :: py "## Earnings") example_path
  = parse_header_pairs two_tables example_path.
Proof.
  apply X14_body_has_no_influence.
  right. exists (Chr.LF :: py "## "). split; [|reflexivity].
  apply (bool_decide_unpack _). by vm_compute.
Defined.
